(** * sfnResume: the callback (pause / resume) pattern for Step Functions

    A verification development for [lib/sfnResume.ts].  The construct
    declares four Task states (one pause task exposed to the application
    workflow, three chained into the resume state machine), one DynamoDB
    table keyed by [id] and one EventBridge rule.  The states are embedded
    below as the data the construct builds; they are run by a small
    interpreter of Task states over a model of the two services they call:
    the DynamoDB table and the task tokens of the Step Functions engine.

    The lookup of the resume state machine is an eventually consistent
    read.  Statements about one execution on a table that no write has
    just changed are made over the table alone ([exec_task], [step],
    [resume]); statements in which a lookup follows a write are made over
    a store that keeps the earlier states of the table, which a lookup may
    still be answered from ([Lag]). *)

From Stdlib Require Import Ascii String.
From stdpp Require Import gmap strings list fin_maps.

Set Warnings "-register-all".
Open Scope string_scope.

(** ** JSON values and reference paths *)

Module Json.

Inductive json :=
| JNull
| JBool (b : bool)
| JNum (z : Z)
| JStr (s : string)
| JArr (l : list json)
| JObj (m : gmap string json).

(** A step of a path: a field of an object or an element of an array. *)
Inductive seg := Field (name : string) | Index (n : nat).

(** A reference path starts at the state input ([$]) or at the context
    object ([$$]). *)
Inductive root := Input | Context.

Definition nonempty (s : string) : bool := negb (String.eqb s "").

(** The value of a decimal digit. *)
Definition digit (c : ascii) : option nat :=
  let n := nat_of_ascii c in
  if Nat.leb 48 n && Nat.leb n 57 then Some (n - 48) else None.

Definition is_quote (c : ascii) : bool :=
  Ascii.eqb c "'"%char || Ascii.eqb c (ascii_of_nat 34).

(** The characters that a name after a dot does not hold: those of the
    operators that select several nodes, and brackets, quotes and blanks. *)
Definition operator_char (c : ascii) : bool :=
  existsb (Ascii.eqb c)
    ["*"; "?"; "("; ")"; "@"; ","; ":"; "]"; "'"; ascii_of_nat 34;
     ascii_of_nat 92; " "]%char.

(** Where the reader of a path stands: between two steps, in a name
    after a dot, after an opening bracket, in an index, in a quoted name,
    or after its closing quote. *)
Inductive reading :=
| Between
| Name (acc : string)
| Opened
| Number (n : nat)
| Quoted (q : ascii) (acc : string)
| Closing (acc : string).

Definition snoc (acc : string) (c : ascii) : string :=
  acc +:+ String c EmptyString.

(** The steps after the root: [.name], [[12]], [['name']] and
    [["name"]], in any order.  [done] holds the steps read so far. *)
Fixpoint parse_segs (st : reading) (done : list seg) (s : string)
  : option (list seg) :=
  match s with
  | EmptyString =>
      match st with
      | Between => Some done
      | Name acc => if nonempty acc then Some (done ++ [Field acc])%list else None
      | _ => None
      end
  | String c s' =>
      match st with
      | Between =>
          if Ascii.eqb c "."%char then parse_segs (Name EmptyString) done s'
          else if Ascii.eqb c "["%char then parse_segs Opened done s'
          else None
      | Name acc =>
          if Ascii.eqb c "."%char then
            if nonempty acc
            then parse_segs (Name EmptyString) (done ++ [Field acc])%list s'
            else None
          else if Ascii.eqb c "["%char then
            if nonempty acc then parse_segs Opened (done ++ [Field acc])%list s'
            else None
          else if operator_char c then None
          else parse_segs (Name (snoc acc c)) done s'
      | Opened =>
          if is_quote c then parse_segs (Quoted c EmptyString) done s'
          else match digit c with
               | Some d => parse_segs (Number d) done s'
               | None => None
               end
      | Number n =>
          if Ascii.eqb c "]"%char then parse_segs Between (done ++ [Index n])%list s'
          else match digit c with
               | Some d => parse_segs (Number (10 * n + d)) done s'
               | None => None
               end
      | Quoted q acc =>
          if Ascii.eqb c q then parse_segs (Closing acc) done s'
          else if Ascii.eqb c (ascii_of_nat 92) then None
          else parse_segs (Quoted q (snoc acc c)) done s'
      | Closing acc =>
          if Ascii.eqb c "]"%char then parse_segs Between (done ++ [Field acc])%list s'
          else None
      end
  end.

(** The paths that name one node: fields in dot or bracket notation and
    array indices ([$.id], [$.detail.jobId], [$.detail.jobs[0]],
    [$['detail']['jobId']], [$$.Task.Token]).  Paths that select several
    nodes (wildcards, slices, unions, filters, descent), negative indices,
    escapes in quoted names and intrinsic functions are not read: for them
    [parse_path] gives [None]. *)
Definition parse_path (p : string) : option (root * list seg) :=
  match p with
  | String c1 rest =>
      if Ascii.eqb c1 "$"%char then
        match rest with
        | String c2 rest' =>
            if Ascii.eqb c2 "$"%char
            then option_map (pair Context) (parse_segs Between [] rest')
            else option_map (pair Input) (parse_segs Between [] rest)
        | EmptyString => Some (Input, [])
        end
      else None
  | EmptyString => None
  end.

(** The value under a chain of field names. *)
Fixpoint json_get (p : list string) (j : json) : option json :=
  match p with
  | [] => Some j
  | k :: p' =>
      match j with
      | JObj m => match m !! k with
                  | Some v => json_get p' v
                  | None => None
                  end
      | _ => None
      end
  end.

(** The value at a path. *)
Fixpoint json_at (p : list seg) (j : json) : option json :=
  match p with
  | [] => Some j
  | Field k :: p' =>
      match j with
      | JObj m => match m !! k with
                  | Some v => json_at p' v
                  | None => None
                  end
      | _ => None
      end
  | Index n :: p' =>
      match j with
      | JArr l => match l !! n with
                  | Some v => json_at p' v
                  | None => None
                  end
      | _ => None
      end
  end.

(** Writing at a path creates the missing fields and replaces the present
    ones; it fails when it has to go through a value of the wrong kind or
    past the end of an array. *)
Fixpoint json_set (p : list seg) (v : json) (j : json) : option json :=
  match p with
  | [] => Some v
  | Field k :: p' =>
      match j with
      | JObj m =>
          match json_set p' v (default (JObj ∅) (m !! k)) with
          | Some v' => Some (JObj (<[k := v']> m))
          | None => None
          end
      | _ => None
      end
  | Index n :: p' =>
      match j with
      | JArr l =>
          match l !! n with
          | Some old =>
              match json_set p' v old with
              | Some v' => Some (JArr (<[n := v']> l))
              | None => None
              end
          | None => None
          end
      | _ => None
      end
  end.

(** The value a path denotes, given the context object and the input. *)
Definition resolve (ctx input : json) (path : string) : option json :=
  match parse_path path with
  | Some (Input, segs) => json_at segs input
  | Some (Context, segs) => json_at segs ctx
  | None => None
  end.

End Json.
Import Json.

(** ** Amazon States Language: Task states *)

Module Asl.

(** [resultPath]: [DISCARD] is [sfn.JsonPath.DISCARD] (the result is thrown
    away and the state passes its input on); [At p] writes the result at
    [p] in the input.  A task that sets none replaces its input by the
    result. *)
Inductive ResultPath := DISCARD | At (path : string).

Inductive IntegrationPattern := REQUEST_RESPONSE | WAIT_FOR_TASK_TOKEN.

(** The [parameters] of a task.  [PStringAt p] is
    [sfn.JsonPath.stringAt(p)]; in an object, a key that ends in [.$] has
    its (string) value read as a path as well. *)
Inductive Param :=
| PStr (s : string)
| PBool (b : bool)
| PStringAt (path : string)
| PObj (fields : list (string * Param)).

(** [sfn.JsonPath.taskToken] *)
Definition taskToken : Param := PStringAt "$$.Task.Token".

(** The key without its [.$] suffix, when it has one. *)
Fixpoint strip_dollar (k : string) : option string :=
  if String.eqb k ".$" then Some ""
  else match k with
       | EmptyString => None
       | String c k' => option_map (String c) (strip_dollar k')
       end.

(** Instantiating the parameters on the state input; [None] when a path
    denotes nothing. *)
Fixpoint eval_param (ctx input : json) (p : Param) : option json :=
  match p with
  | PStr s => Some (JStr s)
  | PBool b => Some (JBool b)
  | PStringAt path => resolve ctx input path
  | PObj fs =>
      option_map JObj
        ((fix fields (fs : list (string * Param)) : option (gmap string json) :=
            match fs with
            | [] => Some ∅
            | (k, q) :: fs' =>
                let value :=
                  match strip_dollar k, q with
                  | Some k', PStr path =>
                      option_map (pair k') (resolve ctx input path)
                  | Some _, _ => None
                  | None, _ => option_map (pair k) (eval_param ctx input q)
                  end in
                match value, fields fs' with
                | Some (k', v), Some m => Some (<[k' := v]> m)
                | _, _ => None
                end
            end) fs)
  end.

Definition apply_result_path (rp : option ResultPath) (input result : json)
  : option json :=
  match rp with
  | Some DISCARD => Some input
  | Some (At p) =>
      match parse_path p with
      | Some (Input, segs) => json_set segs result input
      | _ => None
      end
  | None => Some result
  end.

Inductive ErrorName :=
| States_ALL
| States_Runtime
| States_ResultPathMatchFailure
| DynamoDB_ConditionalCheckFailedException
| DynamoDB_ValidationException
| Sfn_TaskDoesNotExist
| Sfn_ValidationException.

#[global] Instance ErrorName_eq_dec : EqDecision ErrorName.
Proof. solve_decision. Defined.

Definition error_name (e : ErrorName) : string :=
  match e with
  | States_ALL => "States.ALL"
  | States_Runtime => "States.Runtime"
  | States_ResultPathMatchFailure => "States.ResultPathMatchFailure"
  | DynamoDB_ConditionalCheckFailedException =>
      "DynamoDb.ConditionalCheckFailedException"
  | DynamoDB_ValidationException => "DynamoDb.DynamoDbException"
  | Sfn_TaskDoesNotExist => "Sfn.TaskDoesNotExistException"
  | Sfn_ValidationException => "Sfn.ValidationException"
  end.

Definition error_output (e : ErrorName) : json :=
  JObj {[ "Error" := JStr (error_name e) ]}.

(** [ErrorEquals]: [States.ALL] stands for every error name but
    [States.Runtime], which no retrier and no catcher handles. *)
Definition handles (names : list ErrorName) (e : ErrorName) : bool :=
  negb (bool_decide (e = States_Runtime))
  && (bool_decide (e ∈ names) || bool_decide (States_ALL ∈ names)).

Record Retrier := { retry_errors : list ErrorName; maxAttempts : nat }.

Record Catcher := {
  catch_errors : list ErrorName;
  catch_next : string;
  catch_resultPath : option ResultPath }.

(** A Task state as [tasks.CallAwsService], [tasks.DynamoGetItem] and
    [tasks.DynamoDeleteItem] build it.  [retry] and [catch] are filled by
    [addRetry] and [addCatch] only. *)
Record Task := {
  resultPath : option ResultPath;
  service : string;
  action : string;
  integrationPattern : IntegrationPattern;
  parameters : Param;
  retry : list Retrier;
  catch : list Catcher }.

Record State := { task : Task; Next : option string }.

Record StateMachine := { StartAt : string; States : list (string * State) }.

(** [a.next(b).next(c)]: every state goes to the one after it and the last
    one ends the execution. *)
Fixpoint chain (l : list (string * Task)) : list (string * State) :=
  match l with
  | [] => []
  | (n, t) :: rest =>
      (n, {| task := t; Next := head (map fst rest) |}) :: chain rest
  end.

Definition chained (l : list (string * Task)) : StateMachine :=
  {| StartAt := default "" (head (map fst l)); States := chain l |}.

Fixpoint find_state (name : string) (l : list (string * State))
  : option State :=
  match l with
  | [] => None
  | (n, s) :: l' => if String.eqb n name then Some s else find_state name l'
  end.

(** The first retrier that names the error decides: one more attempt while
    its own count is below [maxAttempts]. *)
Fixpoint try_retry (e : ErrorName) (rs : list Retrier) (i : nat)
  (counts : gmap nat nat) : option (gmap nat nat) :=
  match rs with
  | [] => None
  | r :: rs' =>
      if handles (retry_errors r) e then
        let c := default 0 (counts !! i) in
        if Nat.ltb c (maxAttempts r) then Some (<[i := S c]> counts) else None
      else try_retry e rs' (S i) counts
  end.

Fixpoint find_catcher (e : ErrorName) (cs : list Catcher) : option Catcher :=
  match cs with
  | [] => None
  | c :: cs' => if handles (catch_errors c) e then Some c else find_catcher e cs'
  end.

End Asl.
Import Asl.

(** ** The services the tasks call *)

Module Aws.

(** A service call as the execution history shows it: the request and
    whether the service accepted it. *)
Record ApiCall := {
  call_service : string;
  call_action : string;
  call_request : json;
  call_accepted : bool }.

(** An execution the engine holds at a [WAIT_FOR_TASK_TOKEN] task: the input
    of the task and where its result goes. *)
Record Parked := { parked_input : json; parked_resultPath : option ResultPath }.

(** [table]: the items of the construct's table in DynamoDB JSON, under
    their partition key [id], as the writes accepted so far leave them.
    [pending]: the task tokens the engine waits for.
    [resumed]: the tokens of the tasks released so far, with the output
    state of the task ([None] when the result could not be placed).
    [calls]: every service call made, oldest first. *)
Record World := {
  table : gmap string json;
  pending : gmap string Parked;
  resumed : gmap string (option json);
  calls : list ApiCall }.

Definition with_table (t : gmap string json) (w : World) : World :=
  {| table := t; pending := pending w; resumed := resumed w; calls := calls w |}.

Definition with_call (c : ApiCall) (w : World) : World :=
  {| table := table w; pending := pending w; resumed := resumed w;
     calls := calls w ++ [c] |}.

Definition park (tok : string) (p : Parked) (w : World) : World :=
  {| table := table w; pending := <[tok := p]> (pending w);
     resumed := resumed w; calls := calls w |}.

Definition release (tok : string) (out : option json) (w : World) : World :=
  {| table := table w; pending := delete tok (pending w);
     resumed := <[tok := out]> (resumed w); calls := calls w |}.

Definition as_string (j : option json) : option string :=
  match j with
  | Some (JStr s) => Some s
  | _ => None
  end.

(** [PutItem].  Every stored item carries its partition key, so
    [attribute_not_exists(id)] holds exactly when no item is stored under
    the key of the new one.  No other condition expression is read. *)
Definition putItem (req : json) (t : gmap string json)
  : ErrorName + json * gmap string json :=
  match json_get ["Item"] req, as_string (json_get ["Item"; "id"; "S"] req) with
  | Some item, Some id =>
      match json_get ["ConditionExpression"] req with
      | None => inr (JObj ∅, <[id := item]> t)
      | Some (JStr c) =>
          if String.eqb c "attribute_not_exists(id)" then
            match t !! id with
            | Some _ => inl DynamoDB_ConditionalCheckFailedException
            | None => inr (JObj ∅, <[id := item]> t)
            end
          else inl DynamoDB_ValidationException
      | Some _ => inl DynamoDB_ValidationException
      end
  | _, _ => inl DynamoDB_ValidationException
  end.

(** Whether a read asks to be strongly consistent. *)
Definition consistent_read (req : json) : bool :=
  match json_get ["ConsistentRead"] req with
  | Some (JBool b) => b
  | _ => false
  end.

(** [GetItem]: the response has an [Item] field only when an item is
    stored under the key.  A strongly consistent read answers from the
    table [t]; any other read is eventually consistent and answers from
    [replica], the copy of the table it reaches, which may not have
    received the latest writes. *)
Definition getItem (req : json) (t replica : gmap string json)
  : ErrorName + json :=
  match as_string (json_get ["Key"; "id"; "S"] req) with
  | Some id =>
      match (if consistent_read req then t else replica) !! id with
      | Some item => inr (JObj {[ "Item" := item ]})
      | None => inr (JObj ∅)
      end
  | None => inl DynamoDB_ValidationException
  end.

(** [DeleteItem]: deleting an absent key is no error. *)
Definition deleteItem (req : json) (t : gmap string json)
  : ErrorName + json * gmap string json :=
  match as_string (json_get ["Key"; "id"; "S"] req) with
  | Some id => inr (JObj ∅, delete id t)
  | None => inl DynamoDB_ValidationException
  end.

(** [SendTaskSuccess]: accepted for a token the engine waits for, which
    releases the parked task with [Output] as its result; rejected for any
    other token (unknown, expired or already used). *)
Definition sendTaskSuccess (req : json) (w : World) : ErrorName + json * World :=
  match as_string (json_get ["TaskToken"] req), json_get ["Output"] req with
  | Some tok, Some out =>
      match pending w !! tok with
      | Some p =>
          inr (JObj ∅,
               release tok
                 (apply_result_path (parked_resultPath p) (parked_input p) out) w)
      | None => inl Sfn_TaskDoesNotExist
      end
  | _, _ => inl Sfn_ValidationException
  end.

Definition dispatch (replica : gmap string json) (svc act : string)
  (req : json) (w : World) : ErrorName + json * World :=
  if String.eqb svc "dynamodb" then
    if String.eqb act "putItem" then
      match putItem req (table w) with
      | inr (res, t) => inr (res, with_table t w)
      | inl e => inl e
      end
    else if String.eqb act "getItem" then
      match getItem req (table w) replica with
      | inr res => inr (res, w)
      | inl e => inl e
      end
    else if String.eqb act "deleteItem" then
      match deleteItem req (table w) with
      | inr (res, t) => inr (res, with_table t w)
      | inl e => inl e
      end
    else inl States_Runtime
  else if String.eqb svc "sfn" then
    if String.eqb act "sendTaskSuccess" then sendTaskSuccess req w
    else inl States_Runtime
  else inl States_Runtime.

(** A call is recorded whether the service accepts it or not. *)
Definition call_aws (replica : gmap string json) (svc act : string)
  (req : json) (w : World) : (ErrorName + json) * World :=
  let call ok :=
    {| call_service := svc; call_action := act; call_request := req;
       call_accepted := ok |} in
  match dispatch replica svc act req w with
  | inr (res, w') => (inr res, with_call (call true) w')
  | inl e => (inl e, with_call (call false) w)
  end.

End Aws.
Import Aws.

(** ** Running Task states *)

Module Interp.

Inductive Outcome :=
| TaskSucceeded (output : json)
| TaskWaiting (tok : string)
| TaskRetry (counts : gmap nat nat)
| TaskCaught (next : string) (output : json)
| TaskFailed (e : ErrorName).

(** What an error does to a task: another attempt if a retrier allows it,
    else the catcher's next state, else the task fails with the error. *)
Definition on_error (t : Task) (input : json) (counts : gmap nat nat)
  (e : ErrorName) : Outcome :=
  match try_retry e (retry t) 0 counts with
  | Some counts' => TaskRetry counts'
  | None =>
      match find_catcher e (catch t) with
      | Some c =>
          match apply_result_path (catch_resultPath c) input (error_output e) with
          | Some out => TaskCaught (catch_next c) out
          | None => TaskFailed States_ResultPathMatchFailure
          end
      | None => TaskFailed e
      end
  end.

(** One attempt of a task on [input]: instantiate the parameters, call the
    service, then either place the result ([REQUEST_RESPONSE]) or wait for
    the task token of the context object ([WAIT_FOR_TASK_TOKEN]).
    [replica] is the copy of the table that an eventually consistent read
    of the task reaches. *)
Definition exec_task_on (replica : gmap string json) (t : Task)
  (ctx input : json) (counts : gmap nat nat) (w : World) : Outcome * World :=
  match eval_param ctx input (parameters t) with
  | None => (on_error t input counts States_Runtime, w)
  | Some req =>
      match call_aws replica (service t) (action t) req w with
      | (inl e, w') => (on_error t input counts e, w')
      | (inr res, w') =>
          match integrationPattern t with
          | REQUEST_RESPONSE =>
              match apply_result_path (resultPath t) input res with
              | Some out => (TaskSucceeded out, w')
              | None => (on_error t input counts States_ResultPathMatchFailure, w')
              end
          | WAIT_FOR_TASK_TOKEN =>
              match as_string (json_get ["Task"; "Token"] ctx) with
              | Some tok =>
                  (TaskWaiting tok,
                   park tok {| parked_input := input;
                               parked_resultPath := resultPath t |} w')
              | None => (TaskFailed States_Runtime, w')
              end
          end
      end
  end.

(** An attempt at a time when every copy of the table has received every
    write: its reads, consistent or not, see the table itself. *)
Definition exec_task (t : Task) (ctx input : json) (counts : gmap nat nat)
  (w : World) : Outcome * World :=
  exec_task_on (table w) t ctx input counts w.

(** An execution of a state machine. *)
Inductive Config :=
| Running (state : string) (input : json) (counts : gmap nat nat)
| Waiting (state : string) (tok : string)
| Succeeded (output : json)
| Failed (state : string) (e : ErrorName).

Definition terminal (c : Config) : bool :=
  match c with
  | Succeeded _ | Failed _ _ => true
  | _ => false
  end.

Definition start (sm : StateMachine) (input : json) : Config :=
  Running (StartAt sm) input ∅.

(** Leaving a state with the output [out]. *)
Definition leave (s : State) (out : json) : Config :=
  match Next s with
  | Some n => Running n out ∅
  | None => Succeeded out
  end.

(** One step of an execution is one attempt of its current task; an
    execution that waits for a task token goes on once the engine has
    released the task. *)
Definition step_on (replica : gmap string json) (sm : StateMachine)
  (ctx : json) (c : Config) (w : World) : Config * World :=
  match c with
  | Running name input counts =>
      match find_state name (States sm) with
      | None => (Failed name States_Runtime, w)
      | Some s =>
          match exec_task_on replica (task s) ctx input counts w with
          | (TaskSucceeded out, w') => (leave s out, w')
          | (TaskWaiting tok, w') => (Waiting name tok, w')
          | (TaskRetry counts', w') => (Running name input counts', w')
          | (TaskCaught n out, w') => (Running n out ∅, w')
          | (TaskFailed e, w') => (Failed name e, w')
          end
      end
  | Waiting name tok =>
      match resumed w !! tok, find_state name (States sm) with
      | Some (Some out), Some s => (leave s out, w)
      | Some None, _ => (Failed name States_ResultPathMatchFailure, w)
      | _, _ => (c, w)
      end
  | _ => (c, w)
  end.

(** A step at a time when every copy of the table has received every
    write. *)
Definition step (sm : StateMachine) (ctx : json) (c : Config) (w : World)
  : Config * World :=
  step_on (table w) sm ctx c w.

Fixpoint run (fuel : nat) (sm : StateMachine) (ctx : json) (c : Config)
  (w : World) : Config * World :=
  match fuel with
  | O => (c, w)
  | S fuel' =>
      if terminal c then (c, w)
      else let '(c', w') := step sm ctx c w in run fuel' sm ctx c' w'
  end.

(** Two executions of one state machine over the same world; the schedule
    says which of them takes each step ([true]: the first). *)
Definition step2 (sm : StateMachine) (ctx1 ctx2 : json) (first : bool)
  (s : Config * Config * World) : Config * Config * World :=
  let '(c1, c2, w) := s in
  if first then let '(c1', w') := step sm ctx1 c1 w in (c1', c2, w')
  else let '(c2', w') := step sm ctx2 c2 w in (c1, c2', w').

Definition interleave (sm : StateMachine) (ctx1 ctx2 : json)
  (schedule : list bool) (s : Config * Config * World)
  : Config * Config * World :=
  fold_left (fun s first => step2 sm ctx1 ctx2 first s) schedule s.

End Interp.
Import Interp.

(** ** The construct *)

Module SfnResume.

(** The props the tasks read: the two paths to the job id.  The removal
    policy, the name suffix, the event pattern and the role only configure
    resources. *)
Record props := {
  pathToIdPauseTask : string;
  pathToIdWorkflow : string }.

(** [table.tableName] *)
Definition tableName : string := "table".

(** [tasks.DynamoAttributeValue.fromString(v)] *)
Definition DynamoAttributeValue_fromString (v : Param) : Param :=
  PObj [("S", v)].

(** [new tasks.CallAwsService(..)]; the integration pattern defaults to
    [REQUEST_RESPONSE], and [iamResources] only configures the role. *)
Definition CallAwsService (rp : option ResultPath) (svc act : string)
  (pattern : IntegrationPattern) (params : Param) : Task :=
  {| resultPath := rp; service := svc; action := act;
     integrationPattern := pattern; parameters := params;
     retry := []; catch := [] |}.

(** [new tasks.DynamoGetItem(..)]: the optimised [getItem] integration
    on the [key] of the [table].  The construct sets no [consistentRead],
    and the task then asks for [ConsistentRead: false]. *)
Definition DynamoGetItem (rp : option ResultPath) (key : list (string * Param))
  : Task :=
  {| resultPath := rp; service := "dynamodb"; action := "getItem";
     integrationPattern := REQUEST_RESPONSE;
     parameters := PObj [("Key", PObj key); ("TableName", PStr tableName);
                         ("ConsistentRead", PBool false)];
     retry := []; catch := [] |}.

(** [new tasks.DynamoDeleteItem(..)] *)
Definition DynamoDeleteItem (rp : option ResultPath) (key : list (string * Param))
  : Task :=
  {| resultPath := rp; service := "dynamodb"; action := "deleteItem";
     integrationPattern := REQUEST_RESPONSE;
     parameters := PObj [("Key", PObj key); ("TableName", PStr tableName)];
     retry := []; catch := [] |}.

Section Construct.
Variable p : props.

(** [this.task]: the pause task of the application workflow. *)
Definition putDbResumeToken : Task :=
  CallAwsService (Some DISCARD) "dynamodb" "putItem" WAIT_FOR_TASK_TOKEN
    (PObj [("TableName", PStr tableName);
           ("Item", PObj [("id", PObj [("S.$", PStr (pathToIdPauseTask p))]);
                          ("token", PObj [("S", taskToken)])]);
           ("ConditionExpression", PStr "attribute_not_exists(id)")]).

Definition getResumeToken : Task :=
  DynamoGetItem (Some (At "$.getResumeToken"))
    [("id", DynamoAttributeValue_fromString (PStringAt (pathToIdWorkflow p)))].

Definition sendTaskSuccess : Task :=
  CallAwsService (Some (At "$.sendTaskSuccess")) "sfn" "sendTaskSuccess"
    REQUEST_RESPONSE
    (PObj [("TaskToken", PStringAt "$.getResumeToken.Item.token.S");
           ("Output", PObj [("staus", PStr "resume")])]).

Definition deleteResumeToken : Task :=
  DynamoDeleteItem None
    [("id", DynamoAttributeValue_fromString (PStringAt (pathToIdWorkflow p)))].

(** [getResumeToken.next(sendTaskSuccess).next(deleteResumeToken)] *)
Definition definition : StateMachine :=
  chained [("getResumeToken", getResumeToken);
           ("sendTaskSuccess", sendTaskSuccess);
           ("deleteResumeToken", deleteResumeToken)].

End Construct.

End SfnResume.
Import SfnResume.


(** ** Vocabulary of the statements *)

(** The requests the four tasks send, as their parameters render them. *)
Definition key_request (id : json) : json :=
  JObj (<["Key" := JObj (<["id" := JObj (<["S" := id]> ∅)]> ∅)]>
        (<["TableName" := JStr tableName]> ∅)).

Definition get_request (id : json) : json :=
  JObj (<["Key" := JObj (<["id" := JObj (<["S" := id]> ∅)]> ∅)]>
        (<["TableName" := JStr tableName]>
         (<["ConsistentRead" := JBool false]> ∅))).

Definition token_item (id tok : json) : json :=
  JObj (<["id" := JObj (<["S" := id]> ∅)]>
        (<["token" := JObj (<["S" := tok]> ∅)]> ∅)).

Definition put_request (id tok : json) : json :=
  JObj (<["TableName" := JStr tableName]>
        (<["Item" := token_item id tok]>
         (<["ConditionExpression" := JStr "attribute_not_exists(id)"]> ∅))).

(** The [Output] of the resume signal, spelled as the source spells it. *)
Definition resume_output : json := JObj (<["staus" := JStr "resume"]> ∅).

Definition signal_request (tok : json) : json :=
  JObj (<["TaskToken" := tok]> (<["Output" := resume_output]> ∅)).

Definition put_call (id tok : json) (ok : bool) : ApiCall :=
  {| call_service := "dynamodb"; call_action := "putItem";
     call_request := put_request id tok; call_accepted := ok |}.

Definition lookup_call (id : json) (ok : bool) : ApiCall :=
  {| call_service := "dynamodb"; call_action := "getItem";
     call_request := get_request id; call_accepted := ok |}.

Definition signal_call (tok : json) (ok : bool) : ApiCall :=
  {| call_service := "sfn"; call_action := "sendTaskSuccess";
     call_request := signal_request tok; call_accepted := ok |}.

Definition delete_call (id : json) (ok : bool) : ApiCall :=
  {| call_service := "dynamodb"; call_action := "deleteItem";
     call_request := key_request id; call_accepted := ok |}.

(** Which operation of which service a call is. *)
Definition call_op (c : ApiCall) : string * string :=
  (call_service c, call_action c).

Definition is_call (svc act : string) (c : ApiCall) : bool :=
  String.eqb (call_service c) svc && String.eqb (call_action c) act.

Definition is_signal : ApiCall → bool := is_call "sfn" "sendTaskSuccess".
Definition is_delete : ApiCall → bool := is_call "dynamodb" "deleteItem".

(** What [GetItem] answers for the item found under a key, if any. *)
Definition get_result (found : option json) : json :=
  match found with
  | Some item => JObj {[ "Item" := item ]}
  | None => JObj ∅
  end.

(** Where [sendTaskSuccess] reads the task token. *)
Definition token_path : list string := ["getResumeToken"; "Item"; "token"; "S"].

(** The token attribute of a stored item. *)
Definition item_token (item : json) : option json := json_get ["token"; "S"] item.

(** A resume attempt: one execution of the resume state machine on an
    event, which the rule hands over whole as the input.  Three steps
    suffice for any execution to end ([resume_terminal]). *)
Definition resume (p : props) (ctx : json) (ev : gmap string json) (w : World)
  : Config * World :=
  run 3 (definition p) ctx (start (definition p) (JObj ev)) w.

(** The calls made between two worlds. *)
Definition new_calls (w w' : World) : list ApiCall :=
  drop (length (calls w)) (calls w').

(** The end of a resume attempt that found no token to signal with: the
    execution fails when [sendTaskSuccess] cannot read
    [$.getResumeToken.Item.token.S], before any call of that state. *)
Definition SKIPPED (c : Config) : Prop :=
  c = Failed "sendTaskSuccess" States_Runtime.

Definition DONE (c : Config) : Prop := ∃ out, c = Succeeded out.

(** The resume state machine writes the fields [getResumeToken] and
    [sendTaskSuccess] of its state.  An event delivered by EventBridge has
    neither: its top-level fields are those of the event envelope
    ([version], [id], [detail-type], [source], [account], [time], [region],
    [resources], [detail]). *)
Definition event_like (ev : gmap string json) : Prop :=
  ev !! "getResumeToken" = None ∧ ev !! "sendTaskSuccess" = None.

(** Signal calls the engine accepted. *)
Definition is_accepted_signal (c : ApiCall) : bool :=
  is_signal c && call_accepted c.

(** ** Reads that lag behind

    The lookup of the resume state machine asks for [ConsistentRead: false]:
    it is answered by a copy of the table, which holds the table as it is
    now or as it was at some earlier time.  A store keeps, next to the
    world, the earlier states of the table; [lag] says how far behind the
    copy is that answers a read: [0] for the table as it is, [S n] for the
    [n]-th of the earlier states, the latest first. *)

Module Lag.

Record Store := { now : World; earlier : list (gmap string json) }.

(** A store whose copies have all received every write. *)
Definition settled (w : World) : Store := {| now := w; earlier := [] |}.

Definition copies (s : Store) : list (gmap string json) :=
  table (now s) :: earlier s.

(** The copy a read with this lag reaches; a lag beyond the earlier states
    that are kept reaches the table as it is. *)
Definition read_from (lag : nat) (s : Store) : gmap string json :=
  default (table (now s)) (copies s !! lag).

(** After a step the table as it was before is one of the earlier
    states. *)
Definition after (s : Store) (w' : World) : Store :=
  {| now := w'; earlier := copies s |}.

(** One attempt of a task whose eventually consistent reads lag. *)
Definition exec_task (lag : nat) (t : Task) (ctx input : json)
  (counts : gmap nat nat) (s : Store) : Outcome * Store :=
  let '(o, w') := exec_task_on (read_from lag s) t ctx input counts (now s) in
  (o, after s w').

Definition step (lag : nat) (sm : StateMachine) (ctx : json) (c : Config)
  (s : Store) : Config * Store :=
  let '(c', w') := step_on (read_from lag s) sm ctx c (now s) in
  (c', after s w').

Fixpoint run (fuel : nat) (lag : nat) (sm : StateMachine) (ctx : json)
  (c : Config) (s : Store) : Config * Store :=
  match fuel with
  | O => (c, s)
  | S fuel' =>
      if terminal c then (c, s)
      else let '(c', s') := step lag sm ctx c s in run fuel' lag sm ctx c' s'
  end.

(** A resume attempt whose reads lag. *)
Definition resume (p : props) (ctx : json) (lag : nat) (ev : gmap string json)
  (s : Store) : Config * Store :=
  run 3 lag (definition p) ctx (start (definition p) (JObj ev)) s.

(** Two executions over one store; a turn says which of them takes the
    step ([true]: the first) and how far its reads lag. *)
Definition step2 (sm : StateMachine) (ctx1 ctx2 : json) (turn : bool * nat)
  (x : Config * Config * Store) : Config * Config * Store :=
  let '(c1, c2, s) := x in
  if turn.1 then let '(c1', s') := step turn.2 sm ctx1 c1 s in (c1', c2, s')
  else let '(c2', s') := step turn.2 sm ctx2 c2 s in (c1, c2', s').

Definition interleave (sm : StateMachine) (ctx1 ctx2 : json)
  (schedule : list (bool * nat)) (x : Config * Config * Store)
  : Config * Config * Store :=
  fold_left (fun x turn => step2 sm ctx1 ctx2 turn x) schedule x.

(** Two resume attempts on the same event under a schedule. *)
Definition resume2 (p : props) (ctx1 ctx2 : json) (ev : gmap string json)
  (schedule : list (bool * nat)) (s : Store) : Config * Config * Store :=
  interleave (definition p) ctx1 ctx2 schedule
    (start (definition p) (JObj ev), start (definition p) (JObj ev), s).

(** One execution for every delivery of an event, one after the other,
    each with its context object and the lag of its reads. *)
Fixpoint deliveries (p : props) (ctxs : list (json * nat))
  (ev : gmap string json) (s : Store) : list Config * Store :=
  match ctxs with
  | [] => ([], s)
  | (ctx, lag) :: ctxs' =>
      let '(c, s1) := resume p ctx lag ev s in
      let '(cs, s2) := deliveries p ctxs' ev s1 in
      (c :: cs, s2)
  end.

(** Every copy holds the item under the key. *)
Definition everywhere (id : string) (item : json) (s : Store) : Prop :=
  Forall (λ t, t !! id = Some item) (copies s).

End Lag.

(** ** Two attempts on one record

    How far a resume attempt for a stored record has come.  Between two
    attempts on the same event the only things that matter are whether the
    record is still stored, whether the engine still waits for its token
    and, for a lookup, whether the copy of the table that answers it holds
    the record; the phases and these bits abstract the executions. *)

Module Race.

Inductive phase :=
| PLookup      (* about to look the record up *)
| PSignal      (* found the record, about to signal *)
| PMiss        (* found no record, about to read the token *)
| PDelete      (* signal accepted, about to delete *)
| PDone        (* succeeded *)
| PSkipped     (* failed without a signal *)
| PRejected.   (* failed on a rejected signal *)

Definition config_of (ev : gmap string json) (item : json) (φ : phase) : Config :=
  let found := <["getResumeToken" := get_result (Some item)]> ev in
  match φ with
  | PLookup => Running "getResumeToken" (JObj ev) ∅
  | PSignal => Running "sendTaskSuccess" (JObj found) ∅
  | PMiss =>
      Running "sendTaskSuccess"
        (JObj (<["getResumeToken" := get_result None]> ev)) ∅
  | PDelete =>
      Running "deleteResumeToken"
        (JObj (<["sendTaskSuccess" := JObj ∅]> found)) ∅
  | PDone => Succeeded (JObj ∅)
  | PSkipped => Failed "sendTaskSuccess" States_Runtime
  | PRejected => Failed "sendTaskSuccess" Sfn_TaskDoesNotExist
  end.

(** [stored]: the record is in the table; [waits]: the engine waits for
    its token. *)
Record astate := {
  ph1 : phase; ph2 : phase; stored : bool; waits : bool }.

Definition phase_step (φ : phase) (st wt : bool) : phase * bool * bool :=
  match φ with
  | PLookup => (if st then PSignal else PMiss, st, wt)
  | PSignal => if wt then (PDelete, st, false) else (PRejected, st, wt)
  | PMiss => (PSkipped, st, wt)
  | PDelete => (PDone, false, wt)
  | _ => (φ, st, wt)
  end.

(** The step of a phase whose lookup reaches a copy that holds the record
    ([sees]) or not. *)
Definition phase_step_on (sees : bool) (φ : phase) (st wt : bool)
  : phase * bool * bool :=
  match φ with
  | PLookup => (if sees then PSignal else PMiss, st, wt)
  | _ => phase_step φ st wt
  end.

(** A turn of the abstract executions: who takes the step, and whether a
    lookup of this step reaches a copy from before the delete.  While the
    record is stored every copy holds it. *)
Definition astep (turn : bool * bool) (s : astate) : astate :=
  if turn.1 then
    let '(φ, st, wt) :=
      phase_step_on (stored s || turn.2) (ph1 s) (stored s) (waits s) in
    {| ph1 := φ; ph2 := ph2 s; stored := st; waits := wt |}
  else
    let '(φ, st, wt) :=
      phase_step_on (stored s || turn.2) (ph2 s) (stored s) (waits s) in
    {| ph1 := ph1 s; ph2 := φ; stored := st; waits := wt |}.

(** Signal calls made, and accepted, by an attempt in a phase. *)
Definition signalled (φ : phase) : nat :=
  match φ with
  | PDelete | PDone | PRejected => 1
  | _ => 0
  end.

Definition accepted (φ : phase) : nat :=
  match φ with
  | PDelete | PDone => 1
  | _ => 0
  end.

(** Steps an attempt may still take. *)
Definition remaining (φ : phase) : nat :=
  match φ with
  | PLookup => 3
  | PSignal | PMiss => 2
  | PDelete => 1
  | _ => 0
  end.

Definition is_done (φ : phase) : bool :=
  match φ with PDone => true | _ => false end.

Definition is_skipped (φ : phase) : bool :=
  match φ with PSkipped => true | _ => false end.

Definition missed (φ : phase) : bool :=
  match φ with PMiss | PSkipped => true | _ => false end.

(** What holds of every reachable abstract state: the record is gone, or
    an attempt has missed it, only once the other attempt is done; at most
    one signal is accepted, and then the engine waits no more. *)
Definition inv (s : astate) : bool :=
  implb (negb (stored s)) (is_done (ph1 s) || is_done (ph2 s))
  && implb (missed (ph1 s)) (is_done (ph2 s))
  && implb (missed (ph2 s)) (is_done (ph1 s))
  && implb (Nat.ltb 0 (accepted (ph1 s) + accepted (ph2 s))) (negb (waits s))
  && Nat.leb (accepted (ph1 s) + accepted (ph2 s)) 1.

(** After the first attempt is done the record is gone and the engine
    waits no more: the second attempt misses the record, or it is rejected
    by the engine. *)
Definition late (s : astate) : bool :=
  is_done (ph1 s) && negb (stored s) && negb (waits s)
  && match ph2 s with
     | PLookup | PMiss | PSkipped | PSignal | PRejected => true
     | _ => false
     end.

(** The same when the lookup of the second attempt reads the table as it
    is: it can only miss. *)
Definition late_fresh (s : astate) : bool :=
  is_done (ph1 s) && negb (stored s)
  && match ph2 s with PLookup | PMiss | PSkipped => true | _ => false end.

(** The table and the engine agree with the two bits, for the record
    [item] stored under [id] with the token [tok]. *)
Definition agrees (id tok : string) (item : json) (st wt : bool) (w : World)
  : Prop :=
  table w !! id = (if st then Some item else None)
  ∧ (if wt then is_Some (pending w !! tok) else pending w !! tok = None).

(** The earlier states of the table hold the record, or, once it is
    deleted, may not hold any under its key. *)
Definition behind (id : string) (item : json) (st : bool)
  (ts : list (gmap string json)) : Prop :=
  Forall (λ t, t !! id = Some item ∨ (st = false ∧ t !! id = None)) ts.

Definition arun (schedule : list (bool * bool)) (s : astate) : astate :=
  fold_left (fun s turn => astep turn s) schedule s.

(** The abstract state describes two executions and their store: their
    configurations are those of the two phases, the table and the engine
    agree with the two bits, the earlier states of the table are those of
    the record, and the calls made since [w0] hold as many signals as the
    phases say. *)
Definition sim (ev : gmap string json) (id tok : string) (item : json)
  (w0 : World) (s : astate) (x : Config * Config * Lag.Store) : Prop :=
  x.1.1 = config_of ev item (ph1 s)
  ∧ x.1.2 = config_of ev item (ph2 s)
  ∧ agrees id tok item (stored s) (waits s) (Lag.now x.2)
  ∧ behind id item (stored s) (Lag.earlier x.2)
  ∧ ∃ tr, calls (Lag.now x.2) = (calls w0 ++ tr)%list
      ∧ length (List.filter is_signal tr)
        = signalled (ph1 s) + signalled (ph2 s)
      ∧ length (List.filter is_accepted_signal tr)
        = accepted (ph1 s) + accepted (ph2 s).

(** The abstract turns of a schedule: the same executions take the
    steps, and a read that does not lag sees the table as it is. *)
Definition follows (aschedule : list (bool * bool))
  (schedule : list (bool * nat)) : Prop :=
  Forall2 (λ a t, a.1 = t.1 ∧ (t.2 = 0 → a.2 = false)) aschedule schedule.

End Race.

(** How many steps a schedule gives to the first ([true]) or to the second
    ([false]) attempt. *)
Definition turns (who : bool) (schedule : list bool) : nat :=
  length (List.filter (Bool.eqb who) schedule).

(** Who takes the steps of a schedule with lags. *)
Definition who {A} (schedule : list (bool * A)) : list bool := map fst schedule.

(** ** A worked scenario

    The props of the README, an application state that holds the job id
    [job-42], and the completion event of that job. *)

Module Example.

Definition p0 : props :=
  {| pathToIdPauseTask := "$.createTranslationJob.JobId";
     pathToIdWorkflow := "$.detail.jobId" |}.

Definition app_state : json :=
  JObj {[ "createTranslationJob" := JObj {[ "JobId" := JStr "job-42" ]} ]}.

(** The context object of a task the engine gave the token [tok]. *)
Definition task_ctx (tok : string) : json :=
  JObj {[ "Task" := JObj {[ "Token" := JStr tok ]} ]}.

Definition event (id : string) : gmap string json :=
  {[ "source" := JStr "aws.translate";
     "detail" := JObj {[ "jobId" := JStr id; "jobStatus" := JStr "COMPLETED" ]} ]}.

Definition empty : World :=
  {| table := ∅; pending := ∅; resumed := ∅; calls := [] |}.

(** After the pause task ran for [job-42] with the token [h1]. *)
Definition parked : World :=
  snd (exec_task (putDbResumeToken p0) (task_ctx "h1") app_state ∅ empty).

(** The store right after that: the table holds the record of [job-42],
    the earlier state of the table does not. *)
Definition fresh : Lag.Store :=
  snd (Lag.exec_task 0 (putDbResumeToken p0) (task_ctx "h1") app_state ∅
         (Lag.settled empty)).

(** The record of [job-42] is stored but the engine no longer waits for
    [h1] (the execution timed out or was stopped). *)
Definition stale : World :=
  {| table := table parked; pending := ∅; resumed := ∅; calls := calls parked |}.

(** A state machine of an application: the pause task, then a task that
    reads the job id of the state again. *)
Definition app : StateMachine :=
  chained [("pause", putDbResumeToken p0);
           ("after", DynamoGetItem (Some (At "$.check"))
                       [("id", DynamoAttributeValue_fromString
                                 (PStringAt "$.createTranslationJob.JobId"))])].

End Example.

(** ** The resources the construct names

    The state machine, its log group and the rule take their names from
    the stack and from [props.nameSuffix]. *)

Module Resources.

(** [`${stackName}_${nameSuffix}`] *)
Definition stateMachineName (stackName nameSuffix : string) : string :=
  stackName +:+ "_" +:+ nameSuffix.

(** [`/aws/vendedlogs/states/${stackName}/${nameSuffix}`] *)
Definition logGroupName (stackName nameSuffix : string) : string :=
  "/aws/vendedlogs/states/" +:+ stackName +:+ "/" +:+ nameSuffix.

(** [`${nameSuffix} sfnResume`] *)
Definition ruleDescription (nameSuffix : string) : string :=
  nameSuffix +:+ " sfnResume".

End Resources.

(** ** One event delivered several times

    The rule starts one execution for every delivery of an event; here the
    executions run one after the other, each with its own context
    object, on the world the one before left. *)
Fixpoint deliveries (p : props) (ctxs : list json) (ev : gmap string json)
  (w : World) : list Config * World :=
  match ctxs with
  | [] => ([], w)
  | ctx :: ctxs' =>
      let '(c, w1) := resume p ctx ev w in
      let '(cs, w2) := deliveries p ctxs' ev w1 in
      (c :: cs, w2)
  end.

(** ** Attempts for two different jobs

    Each attempt has its own record and token, so each follows
    [Race.phase_step] on its own two bits. *)
Module Apart.

Definition pstate : Type := Race.phase * bool * bool.

Definition pstep (x : pstate) : pstate :=
  Race.phase_step x.1.1 x.1.2 x.2.

(** An attempt after [n] of its steps. *)
Definition after (n : nat) (x : pstate) : pstate := Nat.iter n pstep x.

(** Two attempts, the first on the event [ev1] of the record [item1], the
    second on [ev2] of [item2], and their world: each attempt is in its
    phase, the table and the engine agree with the bits of each, and the
    records of other ids are those of the world [w0] the attempts started
    in. *)
Definition sim (ev1 ev2 : gmap string json) (id1 id2 tok1 tok2 : string)
  (item1 item2 : json) (w0 : World) (x1 x2 : pstate)
  (s : Config * Config * World) : Prop :=
  s.1.1 = Race.config_of ev1 item1 x1.1.1
  ∧ s.1.2 = Race.config_of ev2 item2 x2.1.1
  ∧ Race.agrees id1 tok1 item1 x1.1.2 x1.2 s.2
  ∧ Race.agrees id2 tok2 item2 x2.1.2 x2.2 s.2
  ∧ (∀ k, k ≠ id1 → k ≠ id2 → table s.2 !! k = table w0 !! k).

End Apart.

(** A second job in the scenario: [job-7], parked with the token [h2]
    while [job-42] is parked with [h1]. *)
Module Example2.

Definition app_state : json :=
  JObj {[ "createTranslationJob" := JObj {[ "JobId" := JStr "job-7" ]} ]}.

Definition parked : World :=
  snd (exec_task (putDbResumeToken Example.p0) (Example.task_ctx "h2")
         app_state ∅ Example.parked).

(** An item that some other writer left without a token. *)
Definition bare_item : json := JObj {[ "id" := JObj {[ "S" := JStr "job-1" ]} ]}.

Definition bare : World := with_table {[ "job-1" := bare_item ]} Example.empty.

End Example2.

(** ** Tactics *)

(** Brings the calls of a world built from [w] to the form [calls w ++ _]. *)
Ltac calls_of w :=
  cbn [calls with_call with_table release park];
  rewrite <- ?(assoc_L (++) (calls w)); cbn [app].

(** Closes a fact about an explicit list of calls of a store. *)
Ltac lag_trace_fact w :=
  cbn [Lag.now Lag.after];
  first
    [ done
    | by calls_of w
    | by rewrite app_nil_r
    | by eexists
    | by (intros [|[|[|?]]] ? ? ?; simpl in *; simplify_eq; try done; lia)
    | by (split; [intros [? ?]|intros [? _]])
    | by (split; [intros _; split; [|repeat constructor]|eexists])
    | by (split; [by intros [? ?]|];
          intros [_ Hall]; repeat (apply Forall_cons in Hall as [? Hall]);
          simplify_eq/=)
    | by (intros ? [= <-]; eauto 10)
    | by (intros; simplify_eq/=; eauto 10)
    | by (intros; simplify_eq/=; eexists; split_and!; eauto using ex_intro)
    | by (intros; simplify_eq/=;
          match goal with H : ∀ _, _ ≠ _ |- _ => by edestruct H end)
    | by (intros ? ? ? [= <-] Hi Ht;
          repeat match goal with
          | H : Lag.read_from _ _ !! _ ≫= item_token = _ |- _ =>
              rewrite Hi in H; cbn [mbind option_bind] in H
          | H : Lag.read_from _ _ !! _ = Some _ |- _ =>
              rewrite Hi in H
          end; simplify_eq; first [congruence | eauto])
    | by (intros Hev;
          match goal with H : event_like _ → _ |- _ => specialize (H Hev) end;
          intros; simplify_eq/=;
          first [ by eauto 10
                | by (eexists; split_and!; [done..|by eexists])
                | match goal with H : ∀ _, _ ≠ _ |- _ => by edestruct H end ])
    | by (intros; simplify_eq/=; eexists; split; [done|];
          intros Hev;
          match goal with H : event_like _ → _ |- _ => specialize (H Hev) end;
          by simplify_eq/=) ].

(** * Properties *)

(** ** The requests of the tasks *)

(** The parameters of each task, instantiated on an input. *)

Section Requests.
Context (p : props) (ctx : json).

Lemma resolve_token_path s :
  resolve ctx s "$.getResumeToken.Item.token.S" = json_get token_path s.
Proof. reflexivity. Qed.

Lemma resolve_taskToken s :
  resolve ctx s "$$.Task.Token" = json_get ["Task"; "Token"] ctx.
Proof. reflexivity. Qed.

Lemma getResumeToken_request input :
  eval_param ctx input (parameters (getResumeToken p)) =
  option_map get_request (resolve ctx input (pathToIdWorkflow p)).
Proof. simpl. by destruct (resolve _ _ _). Qed.

Lemma deleteResumeToken_request input :
  eval_param ctx input (parameters (deleteResumeToken p)) =
  option_map key_request (resolve ctx input (pathToIdWorkflow p)).
Proof. simpl. by destruct (resolve _ _ _). Qed.

Lemma sendTaskSuccess_request input :
  eval_param ctx input (parameters sendTaskSuccess) =
  option_map signal_request (json_get token_path input).
Proof.
  set (r := json_get token_path input). simpl.
  rewrite resolve_token_path. change (json_get token_path input) with r.
  by destruct r.
Qed.

Lemma putDbResumeToken_request input :
  eval_param ctx input (parameters (putDbResumeToken p)) =
  match resolve ctx input (pathToIdPauseTask p), json_get ["Task"; "Token"] ctx with
  | Some id, Some tok => Some (put_request id tok)
  | _, _ => None
  end.
Proof.
  set (tk := json_get ["Task"; "Token"] ctx). simpl.
  rewrite resolve_taskToken. change (json_get ["Task"; "Token"] ctx) with tk.
  destruct (resolve _ _ _); simpl; [|done]. by destruct tk.
Qed.

End Requests.

(** What the services read in these requests. *)
Lemma key_request_key v : json_get ["Key"; "id"; "S"] (key_request v) = Some v.
Proof. reflexivity. Qed.

Lemma get_request_key v : json_get ["Key"; "id"; "S"] (get_request v) = Some v.
Proof. reflexivity. Qed.

Lemma get_request_eventual v : consistent_read (get_request v) = false.
Proof. reflexivity. Qed.

Lemma put_request_item id tok :
  json_get ["Item"] (put_request id tok) = Some (token_item id tok).
Proof. reflexivity. Qed.

Lemma put_request_key id tok :
  json_get ["Item"; "id"; "S"] (put_request id tok) = Some id.
Proof. reflexivity. Qed.

Lemma put_request_condition id tok :
  json_get ["ConditionExpression"] (put_request id tok)
  = Some (JStr "attribute_not_exists(id)").
Proof. reflexivity. Qed.

Lemma signal_request_token tok :
  json_get ["TaskToken"] (signal_request tok) = Some tok.
Proof. reflexivity. Qed.

Lemma signal_request_output tok :
  json_get ["Output"] (signal_request tok) = Some resume_output.
Proof. reflexivity. Qed.

(** *** The service calls on these requests *)

Lemma getItem_get_request v t replica :
  getItem (get_request v) t replica =
  match v with
  | JStr id => inr (get_result (replica !! id))
  | _ => inl DynamoDB_ValidationException
  end.
Proof.
  unfold getItem. rewrite get_request_key, get_request_eventual.
  destruct v as [| | |id| |]; try reflexivity.
  simpl. by destruct (replica !! id).
Qed.

Lemma deleteItem_key_request v t :
  deleteItem (key_request v) t =
  match v with
  | JStr id => inr (JObj ∅, delete id t)
  | _ => inl DynamoDB_ValidationException
  end.
Proof.
  unfold deleteItem. rewrite key_request_key. by destruct v.
Qed.

Lemma putItem_put_request v tok t :
  putItem (put_request v tok) t =
  match v with
  | JStr id =>
      match t !! id with
      | Some _ => inl DynamoDB_ConditionalCheckFailedException
      | None => inr (JObj ∅, <[id := token_item v tok]> t)
      end
  | _ => inl DynamoDB_ValidationException
  end.
Proof.
  unfold putItem.
  rewrite put_request_item, put_request_key, put_request_condition.
  by destruct v.
Qed.

Lemma sendTaskSuccess_signal_request v w :
  Aws.sendTaskSuccess (signal_request v) w =
  match v with
  | JStr tok =>
      match pending w !! tok with
      | Some pk =>
          inr (JObj ∅,
               release tok
                 (apply_result_path (parked_resultPath pk) (parked_input pk)
                    resume_output) w)
      | None => inl Sfn_TaskDoesNotExist
      end
  | _ => inl Sfn_ValidationException
  end.
Proof.
  unfold Aws.sendTaskSuccess.
  rewrite signal_request_token, signal_request_output. by destruct v.
Qed.

(** *** One attempt of each task *)

Lemma exec_getResumeToken_on replica p ctx ev counts w :
  exec_task_on replica (getResumeToken p) ctx (JObj ev) counts w =
  match resolve ctx (JObj ev) (pathToIdWorkflow p) with
  | None => (TaskFailed States_Runtime, w)
  | Some (JStr id) =>
      (TaskSucceeded (JObj (<["getResumeToken" := get_result (replica !! id)]> ev)),
       with_call (lookup_call (JStr id) true) w)
  | Some v => (TaskFailed DynamoDB_ValidationException, with_call (lookup_call v false) w)
  end.
Proof.
  unfold exec_task_on. rewrite getResumeToken_request.
  destruct (resolve _ _ _) as [v|]; [|done].
  cbn [option_map]. unfold call_aws.
  change (dispatch _ _ _ _ w) with
    (match getItem (get_request v) (table w) replica with
     | inr res => inr (res, w)
     | inl e => inl e
     end : ErrorName + json * World).
  rewrite getItem_get_request. by destruct v.
Qed.

Lemma exec_getResumeToken p ctx ev counts w :
  exec_task (getResumeToken p) ctx (JObj ev) counts w =
  match resolve ctx (JObj ev) (pathToIdWorkflow p) with
  | None => (TaskFailed States_Runtime, w)
  | Some (JStr id) =>
      (TaskSucceeded (JObj (<["getResumeToken" := get_result (table w !! id)]> ev)),
       with_call (lookup_call (JStr id) true) w)
  | Some v => (TaskFailed DynamoDB_ValidationException, with_call (lookup_call v false) w)
  end.
Proof. apply exec_getResumeToken_on. Qed.

Lemma exec_sendTaskSuccess_on replica ctx input counts w :
  exec_task_on replica sendTaskSuccess ctx (JObj input) counts w =
  match json_get token_path (JObj input) with
  | None => (TaskFailed States_Runtime, w)
  | Some (JStr tok) =>
      match pending w !! tok with
      | Some pk =>
          (TaskSucceeded (JObj (<["sendTaskSuccess" := JObj ∅]> input)),
           with_call (signal_call (JStr tok) true)
             (release tok
                (apply_result_path (parked_resultPath pk) (parked_input pk)
                   resume_output) w))
      | None =>
          (TaskFailed Sfn_TaskDoesNotExist,
           with_call (signal_call (JStr tok) false) w)
      end
  | Some v =>
      (TaskFailed Sfn_ValidationException, with_call (signal_call v false) w)
  end.
Proof.
  unfold exec_task_on. rewrite sendTaskSuccess_request.
  destruct (json_get _ _) as [v|]; [|done].
  cbn [option_map]. unfold call_aws.
  change (dispatch _ _ _ _ w) with (Aws.sendTaskSuccess (signal_request v) w).
  rewrite sendTaskSuccess_signal_request.
  destruct v as [| | |tok| |]; try done. by destruct (pending w !! tok).
Qed.

Lemma exec_deleteResumeToken_on replica p ctx input counts w :
  exec_task_on replica (deleteResumeToken p) ctx input counts w =
  match resolve ctx input (pathToIdWorkflow p) with
  | None => (TaskFailed States_Runtime, w)
  | Some (JStr id) =>
      (TaskSucceeded (JObj ∅),
       with_call (delete_call (JStr id) true) (with_table (delete id (table w)) w))
  | Some v =>
      (TaskFailed DynamoDB_ValidationException, with_call (delete_call v false) w)
  end.
Proof.
  unfold exec_task_on. rewrite deleteResumeToken_request.
  destruct (resolve _ _ _) as [v|]; [|done].
  cbn [option_map]. unfold call_aws.
  change (dispatch _ _ _ _ w) with
    (match deleteItem (key_request v) (table w) with
     | inr (res, t) => inr (res, with_table t w)
     | inl e => inl e
     end : ErrorName + json * World).
  rewrite deleteItem_key_request. by destruct v.
Qed.

Lemma exec_putDbResumeToken_on replica p ctx input counts w tok :
  json_get ["Task"; "Token"] ctx = Some (JStr tok) →
  exec_task_on replica (putDbResumeToken p) ctx input counts w =
  match resolve ctx input (pathToIdPauseTask p) with
  | Some (JStr id) =>
      match table w !! id with
      | Some _ =>
          (TaskFailed DynamoDB_ConditionalCheckFailedException,
           with_call (put_call (JStr id) (JStr tok) false) w)
      | None =>
          (TaskWaiting tok,
           park tok {| parked_input := input; parked_resultPath := Some DISCARD |}
             (with_call (put_call (JStr id) (JStr tok) true)
                (with_table (<[id := token_item (JStr id) (JStr tok)]> (table w)) w)))
      end
  | Some v =>
      (TaskFailed DynamoDB_ValidationException,
       with_call (put_call v (JStr tok) false) w)
  | None => (TaskFailed States_Runtime, w)
  end.
Proof.
  intros Htok. unfold exec_task_on. rewrite putDbResumeToken_request, Htok.
  destruct (resolve _ _ _) as [v|]; [|done].
  unfold call_aws.
  change (dispatch _ _ _ _ w) with
    (match putItem (put_request v (JStr tok)) (table w) with
     | inr (res, t) => inr (res, with_table t w)
     | inl e => inl e
     end : ErrorName + json * World).
  rewrite putItem_put_request.
  destruct v as [| | |id| |]; try done.
  by destruct (table w !! id).
Qed.

Lemma exec_sendTaskSuccess ctx input counts w :
  exec_task sendTaskSuccess ctx (JObj input) counts w =
  match json_get token_path (JObj input) with
  | None => (TaskFailed States_Runtime, w)
  | Some (JStr tok) =>
      match pending w !! tok with
      | Some pk =>
          (TaskSucceeded (JObj (<["sendTaskSuccess" := JObj ∅]> input)),
           with_call (signal_call (JStr tok) true)
             (release tok
                (apply_result_path (parked_resultPath pk) (parked_input pk)
                   resume_output) w))
      | None =>
          (TaskFailed Sfn_TaskDoesNotExist,
           with_call (signal_call (JStr tok) false) w)
      end
  | Some v =>
      (TaskFailed Sfn_ValidationException, with_call (signal_call v false) w)
  end.
Proof. apply exec_sendTaskSuccess_on. Qed.

Lemma exec_deleteResumeToken p ctx input counts w :
  exec_task (deleteResumeToken p) ctx input counts w =
  match resolve ctx input (pathToIdWorkflow p) with
  | None => (TaskFailed States_Runtime, w)
  | Some (JStr id) =>
      (TaskSucceeded (JObj ∅),
       with_call (delete_call (JStr id) true) (with_table (delete id (table w)) w))
  | Some v =>
      (TaskFailed DynamoDB_ValidationException, with_call (delete_call v false) w)
  end.
Proof. apply exec_deleteResumeToken_on. Qed.

Lemma exec_putDbResumeToken p ctx input counts w tok :
  json_get ["Task"; "Token"] ctx = Some (JStr tok) →
  exec_task (putDbResumeToken p) ctx input counts w =
  match resolve ctx input (pathToIdPauseTask p) with
  | Some (JStr id) =>
      match table w !! id with
      | Some _ =>
          (TaskFailed DynamoDB_ConditionalCheckFailedException,
           with_call (put_call (JStr id) (JStr tok) false) w)
      | None =>
          (TaskWaiting tok,
           park tok {| parked_input := input; parked_resultPath := Some DISCARD |}
             (with_call (put_call (JStr id) (JStr tok) true)
                (with_table (<[id := token_item (JStr id) (JStr tok)]> (table w)) w)))
      end
  | Some v =>
      (TaskFailed DynamoDB_ValidationException,
       with_call (put_call v (JStr tok) false) w)
  | None => (TaskFailed States_Runtime, w)
  end.
Proof. apply exec_putDbResumeToken_on. Qed.

(** *** The steps of the resume state machine *)

Lemma step_getResumeToken_on replica p ctx ev counts w :
  step_on replica (definition p) ctx (Running "getResumeToken" (JObj ev) counts) w =
  match resolve ctx (JObj ev) (pathToIdWorkflow p) with
  | None => (Failed "getResumeToken" States_Runtime, w)
  | Some (JStr id) =>
      (Running "sendTaskSuccess"
         (JObj (<["getResumeToken" := get_result (replica !! id)]> ev)) ∅,
       with_call (lookup_call (JStr id) true) w)
  | Some v =>
      (Failed "getResumeToken" DynamoDB_ValidationException,
       with_call (lookup_call v false) w)
  end.
Proof.
  unfold step_on.
  change (find_state _ _) with
    (Some {| task := getResumeToken p; Next := Some "sendTaskSuccess" |}).
  cbn [task Next]. rewrite exec_getResumeToken_on.
  by destruct (resolve _ _ _) as [[]|].
Qed.

Lemma step_getResumeToken p ctx ev counts w :
  step (definition p) ctx (Running "getResumeToken" (JObj ev) counts) w =
  match resolve ctx (JObj ev) (pathToIdWorkflow p) with
  | None => (Failed "getResumeToken" States_Runtime, w)
  | Some (JStr id) =>
      (Running "sendTaskSuccess"
         (JObj (<["getResumeToken" := get_result (table w !! id)]> ev)) ∅,
       with_call (lookup_call (JStr id) true) w)
  | Some v =>
      (Failed "getResumeToken" DynamoDB_ValidationException,
       with_call (lookup_call v false) w)
  end.
Proof. apply step_getResumeToken_on. Qed.

Lemma step_sendTaskSuccess_on replica p ctx input counts w :
  step_on replica (definition p) ctx
    (Running "sendTaskSuccess" (JObj input) counts) w =
  match json_get token_path (JObj input) with
  | None => (Failed "sendTaskSuccess" States_Runtime, w)
  | Some (JStr tok) =>
      match pending w !! tok with
      | Some pk =>
          (Running "deleteResumeToken"
             (JObj (<["sendTaskSuccess" := JObj ∅]> input)) ∅,
           with_call (signal_call (JStr tok) true)
             (release tok
                (apply_result_path (parked_resultPath pk) (parked_input pk)
                   resume_output) w))
      | None =>
          (Failed "sendTaskSuccess" Sfn_TaskDoesNotExist,
           with_call (signal_call (JStr tok) false) w)
      end
  | Some v =>
      (Failed "sendTaskSuccess" Sfn_ValidationException,
       with_call (signal_call v false) w)
  end.
Proof.
  unfold step_on.
  change (find_state _ _) with
    (Some {| task := sendTaskSuccess; Next := Some "deleteResumeToken" |}).
  cbn [task Next]. rewrite exec_sendTaskSuccess_on.
  destruct (json_get _ _) as [[| | |tok| |]|]; try done.
  by destruct (pending w !! tok).
Qed.

Lemma step_deleteResumeToken_on replica p ctx input counts w :
  step_on replica (definition p) ctx
    (Running "deleteResumeToken" input counts) w =
  match resolve ctx input (pathToIdWorkflow p) with
  | None => (Failed "deleteResumeToken" States_Runtime, w)
  | Some (JStr id) =>
      (Succeeded (JObj ∅),
       with_call (delete_call (JStr id) true) (with_table (delete id (table w)) w))
  | Some v =>
      (Failed "deleteResumeToken" DynamoDB_ValidationException,
       with_call (delete_call v false) w)
  end.
Proof.
  unfold step_on.
  change (find_state _ _) with
    (Some {| task := deleteResumeToken p; Next := None |}).
  cbn [task Next]. rewrite exec_deleteResumeToken_on.
  by destruct (resolve _ _ _) as [[]|].
Qed.

Lemma step_sendTaskSuccess p ctx input counts w :
  step (definition p) ctx (Running "sendTaskSuccess" (JObj input) counts) w =
  match json_get token_path (JObj input) with
  | None => (Failed "sendTaskSuccess" States_Runtime, w)
  | Some (JStr tok) =>
      match pending w !! tok with
      | Some pk =>
          (Running "deleteResumeToken"
             (JObj (<["sendTaskSuccess" := JObj ∅]> input)) ∅,
           with_call (signal_call (JStr tok) true)
             (release tok
                (apply_result_path (parked_resultPath pk) (parked_input pk)
                   resume_output) w))
      | None =>
          (Failed "sendTaskSuccess" Sfn_TaskDoesNotExist,
           with_call (signal_call (JStr tok) false) w)
      end
  | Some v =>
      (Failed "sendTaskSuccess" Sfn_ValidationException,
       with_call (signal_call v false) w)
  end.
Proof. apply step_sendTaskSuccess_on. Qed.

Lemma step_deleteResumeToken p ctx input counts w :
  step (definition p) ctx (Running "deleteResumeToken" input counts) w =
  match resolve ctx input (pathToIdWorkflow p) with
  | None => (Failed "deleteResumeToken" States_Runtime, w)
  | Some (JStr id) =>
      (Succeeded (JObj ∅),
       with_call (delete_call (JStr id) true) (with_table (delete id (table w)) w))
  | Some v =>
      (Failed "deleteResumeToken" DynamoDB_ValidationException,
       with_call (delete_call v false) w)
  end.
Proof. apply step_deleteResumeToken_on. Qed.

(** *** A whole resume attempt *)

Lemma token_after_lookup found ev :
  json_get token_path (JObj (<["getResumeToken" := get_result found]> ev)) =
  match found with
  | Some item => item_token item
  | None => None
  end.
Proof.
  unfold token_path. cbn [json_get]. rewrite lookup_insert_eq.
  destruct found as [item|]; cbn [get_result].
  - by rewrite lookup_singleton_eq.
  - by rewrite lookup_empty.
Qed.

Lemma resume_eq p ctx ev w :
  resume p ctx ev w =
  match resolve ctx (JObj ev) (pathToIdWorkflow p) with
  | None => (Failed "getResumeToken" States_Runtime, w)
  | Some (JStr id) =>
      let s1 := <["getResumeToken" := get_result (table w !! id)]> ev in
      let w1 := with_call (lookup_call (JStr id) true) w in
      match table w !! id ≫= item_token with
      | None => (Failed "sendTaskSuccess" States_Runtime, w1)
      | Some (JStr tok) =>
          match pending w !! tok with
          | Some pk =>
              let s2 := <["sendTaskSuccess" := JObj ∅]> s1 in
              let w2 :=
                with_call (signal_call (JStr tok) true)
                  (release tok
                     (apply_result_path (parked_resultPath pk) (parked_input pk)
                        resume_output) w1) in
              match resolve ctx (JObj s2) (pathToIdWorkflow p) with
              | None => (Failed "deleteResumeToken" States_Runtime, w2)
              | Some (JStr id') =>
                  (Succeeded (JObj ∅),
                   with_call (delete_call (JStr id') true)
                     (with_table (delete id' (table w)) w2))
              | Some v =>
                  (Failed "deleteResumeToken" DynamoDB_ValidationException,
                   with_call (delete_call v false) w2)
              end
          | None =>
              (Failed "sendTaskSuccess" Sfn_TaskDoesNotExist,
               with_call (signal_call (JStr tok) false) w1)
          end
      | Some v =>
          (Failed "sendTaskSuccess" Sfn_ValidationException,
           with_call (signal_call v false) w1)
      end
  | Some v =>
      (Failed "getResumeToken" DynamoDB_ValidationException,
       with_call (lookup_call v false) w)
  end.
Proof.
  unfold resume, run, start.
  change (StartAt (definition p)) with "getResumeToken".
  cbn [terminal]. rewrite step_getResumeToken.
  destruct (resolve _ _ _) as [[| | |id| |]|]; try reflexivity.
  cbn [terminal]. rewrite step_sendTaskSuccess, token_after_lookup.
  cbn zeta.
  replace (table w !! id ≫= item_token) with
    (match table w !! id with Some item => item_token item | None => None end)
    by (by destruct (table w !! id)).
  destruct (match table w !! id with Some _ => _ | None => _ end)
    as [[| | |tok| |]|]; try reflexivity.
  cbn [pending with_call].
  destruct (pending w !! tok) as [pk|]; [|reflexivity].
  cbn [terminal]. rewrite step_deleteResumeToken.
  by destruct (resolve _ _ _) as [[]|].
Qed.

(** Every resume attempt has ended after three steps. *)
Lemma resume_terminal p ctx ev w : terminal (resume p ctx ev w).1 = true.
Proof. rewrite resume_eq. cbn zeta. by repeat case_match. Qed.

(** *** Attempts whose reads lag *)

Lemma read_from_now s : Lag.read_from 0 s = table (Lag.now s).
Proof. reflexivity. Qed.

Lemma read_from_copies lag s : Lag.read_from lag s ∈ Lag.copies s.
Proof.
  unfold Lag.read_from.
  destruct (Lag.copies s !! lag) as [t|] eqn:Ht; cbn [default].
  - by eapply list_elem_of_lookup_2.
  - apply elem_of_cons. by left.
Qed.

Lemma read_from_everywhere lag s id item :
  Lag.everywhere id item s → Lag.read_from lag s !! id = Some item.
Proof.
  intros Hall. unfold Lag.everywhere in Hall. rewrite Forall_forall in Hall.
  apply Hall, read_from_copies.
Qed.

Lemma lag_step_getResumeToken lag p ctx ev counts s :
  Lag.step lag (definition p) ctx (Running "getResumeToken" (JObj ev) counts) s =
  match resolve ctx (JObj ev) (pathToIdWorkflow p) with
  | None => (Failed "getResumeToken" States_Runtime, Lag.after s (Lag.now s))
  | Some (JStr id) =>
      (Running "sendTaskSuccess"
         (JObj (<["getResumeToken" := get_result (Lag.read_from lag s !! id)]> ev))
         ∅,
       Lag.after s (with_call (lookup_call (JStr id) true) (Lag.now s)))
  | Some v =>
      (Failed "getResumeToken" DynamoDB_ValidationException,
       Lag.after s (with_call (lookup_call v false) (Lag.now s)))
  end.
Proof.
  unfold Lag.step. rewrite step_getResumeToken_on.
  by destruct (resolve _ _ _) as [[]|].
Qed.

Lemma lag_step_sendTaskSuccess lag p ctx input counts s :
  Lag.step lag (definition p) ctx
    (Running "sendTaskSuccess" (JObj input) counts) s =
  match json_get token_path (JObj input) with
  | None => (Failed "sendTaskSuccess" States_Runtime, Lag.after s (Lag.now s))
  | Some (JStr tok) =>
      match pending (Lag.now s) !! tok with
      | Some pk =>
          (Running "deleteResumeToken"
             (JObj (<["sendTaskSuccess" := JObj ∅]> input)) ∅,
           Lag.after s
             (with_call (signal_call (JStr tok) true)
                (release tok
                   (apply_result_path (parked_resultPath pk) (parked_input pk)
                      resume_output) (Lag.now s))))
      | None =>
          (Failed "sendTaskSuccess" Sfn_TaskDoesNotExist,
           Lag.after s (with_call (signal_call (JStr tok) false) (Lag.now s)))
      end
  | Some v =>
      (Failed "sendTaskSuccess" Sfn_ValidationException,
       Lag.after s (with_call (signal_call v false) (Lag.now s)))
  end.
Proof.
  unfold Lag.step. rewrite step_sendTaskSuccess_on.
  destruct (json_get _ _) as [[| | |tok| |]|]; try done.
  by destruct (pending (Lag.now s) !! tok).
Qed.

Lemma lag_step_deleteResumeToken lag p ctx input counts s :
  Lag.step lag (definition p) ctx
    (Running "deleteResumeToken" input counts) s =
  match resolve ctx input (pathToIdWorkflow p) with
  | None => (Failed "deleteResumeToken" States_Runtime, Lag.after s (Lag.now s))
  | Some (JStr id) =>
      (Succeeded (JObj ∅),
       Lag.after s
         (with_call (delete_call (JStr id) true)
            (with_table (delete id (table (Lag.now s))) (Lag.now s))))
  | Some v =>
      (Failed "deleteResumeToken" DynamoDB_ValidationException,
       Lag.after s (with_call (delete_call v false) (Lag.now s)))
  end.
Proof.
  unfold Lag.step. rewrite step_deleteResumeToken_on.
  by destruct (resolve _ _ _) as [[]|].
Qed.

(** A resume attempt whose lookup reaches a copy that is [lag] steps
    behind: what it finds is what that copy holds. *)
Lemma lag_resume_eq p ctx lag ev s :
  Lag.resume p ctx lag ev s =
  let w := Lag.now s in
  match resolve ctx (JObj ev) (pathToIdWorkflow p) with
  | None => (Failed "getResumeToken" States_Runtime, Lag.after s w)
  | Some (JStr id) =>
      let found := Lag.read_from lag s !! id in
      let s1 := <["getResumeToken" := get_result found]> ev in
      let w1 := with_call (lookup_call (JStr id) true) w in
      let st1 := Lag.after s w1 in
      match found ≫= item_token with
      | None => (Failed "sendTaskSuccess" States_Runtime, Lag.after st1 w1)
      | Some (JStr tok) =>
          match pending w !! tok with
          | Some pk =>
              let s2 := <["sendTaskSuccess" := JObj ∅]> s1 in
              let w2 :=
                with_call (signal_call (JStr tok) true)
                  (release tok
                     (apply_result_path (parked_resultPath pk) (parked_input pk)
                        resume_output) w1) in
              let st2 := Lag.after st1 w2 in
              match resolve ctx (JObj s2) (pathToIdWorkflow p) with
              | None => (Failed "deleteResumeToken" States_Runtime, Lag.after st2 w2)
              | Some (JStr id') =>
                  (Succeeded (JObj ∅),
                   Lag.after st2
                     (with_call (delete_call (JStr id') true)
                        (with_table (delete id' (table w)) w2)))
              | Some v =>
                  (Failed "deleteResumeToken" DynamoDB_ValidationException,
                   Lag.after st2 (with_call (delete_call v false) w2))
              end
          | None =>
              (Failed "sendTaskSuccess" Sfn_TaskDoesNotExist,
               Lag.after st1 (with_call (signal_call (JStr tok) false) w1))
          end
      | Some v =>
          (Failed "sendTaskSuccess" Sfn_ValidationException,
           Lag.after st1 (with_call (signal_call v false) w1))
      end
  | Some v =>
      (Failed "getResumeToken" DynamoDB_ValidationException,
       Lag.after s (with_call (lookup_call v false) w))
  end.
Proof.
  unfold Lag.resume, Lag.run, start.
  change (StartAt (definition p)) with "getResumeToken".
  cbn [terminal]. rewrite lag_step_getResumeToken. cbn zeta.
  destruct (resolve _ _ _) as [[| | |id| |]|]; try reflexivity.
  cbn [terminal]. rewrite lag_step_sendTaskSuccess, token_after_lookup.
  set (found := Lag.read_from lag s !! id).
  replace (found ≫= item_token) with
    (match found with Some item => item_token item | None => None end)
    by (by destruct found).
  destruct (match found with Some _ => _ | None => _ end)
    as [[| | |tok| |]|]; try reflexivity.
  cbn [Lag.now Lag.after pending with_call].
  destruct (pending (Lag.now s) !! tok) as [pk|]; [|reflexivity].
  cbn [terminal]. rewrite lag_step_deleteResumeToken.
  by destruct (resolve _ _ _) as [[]|].
Qed.

(** Every such attempt has ended after three steps. *)
Lemma lag_resume_terminal p ctx lag ev s :
  terminal (Lag.resume p ctx lag ev s).1 = true.
Proof. rewrite lag_resume_eq. cbn zeta. by repeat case_match. Qed.

(** When no read lags, the attempts are those over the table alone. *)
Lemma lag_step_now sm ctx c s :
  (Lag.step 0 sm ctx c s).1 = (step sm ctx c (Lag.now s)).1
  ∧ Lag.now (Lag.step 0 sm ctx c s).2 = (step sm ctx c (Lag.now s)).2.
Proof.
  unfold Lag.step, step. rewrite read_from_now.
  by destruct (step_on _ _ _ _ _).
Qed.

Lemma lag_run_now n sm ctx c s :
  (Lag.run n 0 sm ctx c s).1 = (run n sm ctx c (Lag.now s)).1
  ∧ Lag.now (Lag.run n 0 sm ctx c s).2 = (run n sm ctx c (Lag.now s)).2.
Proof.
  revert c s. induction n as [|n IH]; intros c s; [done|].
  cbn [Lag.run run]. destruct (terminal c); [done|].
  destruct (lag_step_now sm ctx c s) as [Hc Hw].
  destruct (Lag.step 0 sm ctx c s) as [c1 s1].
  destruct (step sm ctx c (Lag.now s)) as [c1' w1].
  cbn [fst snd] in Hc, Hw. subst c1' w1. apply IH.
Qed.

(** On a store all of whose copies hold the table as it is, a lookup
    finds the same whatever its lag: the attempt is the one over the table
    alone. *)
Lemma lag_resume_settled p ctx lag ev s :
  Forall (λ t, t = table (Lag.now s)) (Lag.earlier s) →
  (Lag.resume p ctx lag ev s).1 = (resume p ctx ev (Lag.now s)).1
  ∧ Lag.now (Lag.resume p ctx lag ev s).2 = (resume p ctx ev (Lag.now s)).2.
Proof.
  intros Hall.
  assert (Lag.read_from lag s = table (Lag.now s)) as Hread.
  { pose proof (read_from_copies lag s) as Hin.
    apply elem_of_cons in Hin as [->|Hin]; [done|].
    rewrite Forall_forall in Hall. by apply Hall. }
  rewrite lag_resume_eq, resume_eq, Hread. cbn zeta.
  destruct (resolve ctx (JObj ev) (pathToIdWorkflow p)) as [[| | |id| |]|];
    try done.
  destruct (table (Lag.now s) !! id ≫= item_token) as [[| | |tok| |]|];
    try done.
  destruct (pending (Lag.now s) !! tok) as [pk|]; [|done].
  by destruct (resolve ctx _ (pathToIdWorkflow p)) as [[| | |id'| |]|].
Qed.

(** A field the event does not have can be added without changing what a
    path to a string denotes. *)
Lemma resolve_insert_fresh ctx ev path k v id :
  ev !! k = None →
  resolve ctx (JObj ev) path = Some (JStr id) →
  resolve ctx (JObj (<[k := v]> ev)) path = Some (JStr id).
Proof.
  unfold resolve. intros Hk.
  destruct (parse_path path) as [[[] segs]|]; [|done..].
  destruct segs as [|[k'|n] segs]; [done| |done]. cbn [json_at].
  destruct (ev !! k') eqn:Hk'; [|done].
  rewrite lookup_insert_ne, Hk' by congruence. done.
Qed.

Lemma resolve_after_signal ctx ev path r r' id :
  event_like ev →
  resolve ctx (JObj ev) path = Some (JStr id) →
  resolve ctx
    (JObj (<["sendTaskSuccess" := r']> (<["getResumeToken" := r]> ev))) path
  = Some (JStr id).
Proof.
  intros [Hget Hsend] Hid. apply resolve_insert_fresh.
  - by rewrite lookup_insert_ne.
  - by apply resolve_insert_fresh.
Qed.


(** *** Sanity checks on the scenario *)

Example parse_path_event :
  parse_path "$.detail.jobId" = Some (Input, [Field "detail"; Field "jobId"]).
Proof. reflexivity. Qed.

Example parse_path_context :
  parse_path "$$.Task.Token" = Some (Context, [Field "Task"; Field "Token"]).
Proof. reflexivity. Qed.

Example parse_path_index :
  parse_path "$.detail.jobs[0]"
  = Some (Input, [Field "detail"; Field "jobs"; Index 0]).
Proof. reflexivity. Qed.

Example parse_path_brackets :
  parse_path "$['detail']['jobId']" = Some (Input, [Field "detail"; Field "jobId"]).
Proof. reflexivity. Qed.

Example parse_path_index_then_field :
  parse_path "$.jobs[12].JobId"
  = Some (Input, [Field "jobs"; Index 12; Field "JobId"]).
Proof. reflexivity. Qed.

Example parse_path_wildcard : parse_path "$.detail.jobs[*]" = None.
Proof. reflexivity. Qed.

Example parse_path_descent : parse_path "$..jobId" = None.
Proof. reflexivity. Qed.

Example parse_path_intrinsic : parse_path "States.Format('{}', $.id)" = None.
Proof. reflexivity. Qed.

Example strip_dollar_key : strip_dollar "S.$" = Some "S".
Proof. reflexivity. Qed.

(** The job id as an element of an array: the pause task stores the
    record and the resume state machine finds, signals and deletes it. *)
Example resume_on_an_index_path :
  let p := {| pathToIdPauseTask := "$.jobs[0].JobId";
              pathToIdWorkflow := "$.detail.jobs[0]" |} in
  let st := JObj {[ "jobs" := JArr [JObj {[ "JobId" := JStr "job-42" ]}] ]} in
  let ev := {[ "detail" := JObj {[ "jobs" := JArr [JStr "job-42"] ]} ]} in
  let w := (exec_task (putDbResumeToken p) (Example.task_ctx "h1") st ∅
              Example.empty).2 in
  table w = {[ "job-42" := token_item (JStr "job-42") (JStr "h1") ]}
  ∧ (resume p (JObj ∅) ev w).1 = Succeeded (JObj ∅)
  ∧ new_calls w (resume p (JObj ∅) ev w).2
    = [lookup_call (JStr "job-42") true; signal_call (JStr "h1") true;
       delete_call (JStr "job-42") true]
  ∧ resumed (resume p (JObj ∅) ev w).2 = {[ "h1" := Some st ]}.
Proof. by vm_compute. Qed.

Example parked_table :
  table Example.parked = {[ "job-42" := token_item (JStr "job-42") (JStr "h1") ]}.
Proof. vm_compute. reflexivity. Qed.

Example parked_then_resumed :
  (resume Example.p0 (JObj ∅) (Example.event "job-42") Example.parked).1
    = Succeeded (JObj ∅)
  ∧ resumed (resume Example.p0 (JObj ∅) (Example.event "job-42") Example.parked).2
    = {[ "h1" := Some Example.app_state ]}
  ∧ table (resume Example.p0 (JObj ∅) (Example.event "job-42") Example.parked).2
    = ∅.
Proof. vm_compute. done. Qed.

(** *** Runs and their calls *)

Lemma run_terminal n sm ctx c w :
  terminal c = true → run n sm ctx c w = (c, w).
Proof. intros Hc. destruct n; [done|]. cbn [run]. by rewrite Hc. Qed.

Lemma new_calls_app w w' tr :
  calls w' = (calls w ++ tr)%list → new_calls w w' = tr.
Proof. intros H. unfold new_calls. by rewrite H, drop_app_length. Qed.


(** ** The pause task *)

(** C1. When a record for the job id is already stored, the insert of the
    pause task is rejected with [ConditionalCheckFailedException] and the
    table, hence the stored record and its token, is left as it was. *)
Theorem C1_second_insert_rejected p ctx st counts w id h' old :
  resolve ctx st (pathToIdPauseTask p) = Some (JStr id) →
  json_get ["Task"; "Token"] ctx = Some (JStr h') →
  table w !! id = Some old →
  putItem (put_request (JStr id) (JStr h')) (table w)
    = inl DynamoDB_ConditionalCheckFailedException
  ∧ ∃ w', exec_task (putDbResumeToken p) ctx st counts w
            = (TaskFailed DynamoDB_ConditionalCheckFailedException, w')
          ∧ table w' = table w
          ∧ table w' !! id = Some old
          ∧ pending w' = pending w.
Proof.
  intros Hid Htok Hold. split.
  - by rewrite putItem_put_request, Hold.
  - rewrite (exec_putDbResumeToken _ _ _ _ _ h' Htok), Hid, Hold.
    eexists. split; [reflexivity|]. done.
Qed.

Lemma C1_second_insert_rejected_witness :
  ∃ w', exec_task (putDbResumeToken Example.p0) (Example.task_ctx "h2")
          Example.app_state ∅ Example.parked
          = (TaskFailed DynamoDB_ConditionalCheckFailedException, w')
        ∧ table w' = table Example.parked
        ∧ table w' !! "job-42" = Some (token_item (JStr "job-42") (JStr "h1"))
        ∧ pending w' = pending Example.parked.
Proof.
  apply (C1_second_insert_rejected Example.p0 (Example.task_ctx "h2")
           Example.app_state ∅ Example.parked "job-42" "h2"
           (token_item (JStr "job-42") (JStr "h1")));
    vm_compute; reflexivity.
Defined.

(** C7. In any state machine that holds the pause task as the construct
    hands it over, a duplicate job id fails the execution at the first
    attempt: the task has no retrier and no catcher, one [PutItem] call is
    made and its error ends the execution. *)
Theorem C7_duplicate_insert_fatal sm name next p ctx st counts w id h old n :
  find_state name (States sm) = Some {| task := putDbResumeToken p; Next := next |} →
  resolve ctx st (pathToIdPauseTask p) = Some (JStr id) →
  json_get ["Task"; "Token"] ctx = Some (JStr h) →
  table w !! id = Some old →
  retry (putDbResumeToken p) = [] ∧ catch (putDbResumeToken p) = []
  ∧ ∃ w', run (S n) sm ctx (Running name st counts) w
            = (Failed name DynamoDB_ConditionalCheckFailedException, w')
          ∧ new_calls w w' = [put_call (JStr id) (JStr h) false]
          ∧ table w' = table w.
Proof.
  intros Hst Hid Htok Hold. do 2 (split; [reflexivity|]).
  cbn [run terminal]. unfold step, step_on. rewrite Hst. cbn [task Next].
  rewrite (exec_putDbResumeToken_on _ _ _ _ _ _ h Htok), Hid, Hold.
  rewrite run_terminal by done.
  eexists. split; [reflexivity|]. split; [|done].
  by apply new_calls_app.
Qed.

Lemma C7_duplicate_insert_fatal_witness :
  ∃ w', run 5 Example.app (Example.task_ctx "h2")
          (start Example.app Example.app_state) Example.parked
          = (Failed "pause" DynamoDB_ConditionalCheckFailedException, w')
        ∧ new_calls Example.parked w' = [put_call (JStr "job-42") (JStr "h2") false]
        ∧ table w' = table Example.parked.
Proof.
  apply (C7_duplicate_insert_fatal Example.app "pause" (Some "after") Example.p0
           (Example.task_ctx "h2") Example.app_state ∅ Example.parked
           "job-42" "h2" (token_item (JStr "job-42") (JStr "h1")) 4);
    vm_compute; reflexivity.
Defined.

(** C10.  The pause task parks the execution with its input and the result
    path [DISCARD].  Whatever output the accepted resume signal for its
    token carries, the execution leaves the pause task with the state it
    entered it with. *)
Theorem C10_pause_passes_input_on sm name next p ctx st counts w tok w1 :
  find_state name (States sm)
    = Some {| task := putDbResumeToken p; Next := next |} →
  step sm ctx (Running name st counts) w = (Waiting name tok, w1) →
  pending w1 !! tok
    = Some {| parked_input := st; parked_resultPath := Some DISCARD |}
  ∧ ∀ w' sig out,
      pending w' !! tok = pending w1 !! tok →
      json_get ["TaskToken"] sig = Some (JStr tok) →
      json_get ["Output"] sig = Some out →
      ∃ w'',
        Aws.sendTaskSuccess sig w' = inr (JObj ∅, w'')
        ∧ resumed w'' !! tok = Some (Some st)
        ∧ step sm ctx (Waiting name tok) w''
          = (match next with
             | Some n => Running n st ∅
             | None => Succeeded st
             end, w'').
Proof.
  intros Hst. unfold step at 1. unfold step_on at 1. rewrite Hst. cbn [task].
  unfold exec_task_on.
  destruct (eval_param _ _ _) as [req|]; [|done].
  destruct (call_aws _ _ _ _ _) as [[e|res] w2]; [done|].
  cbn [integrationPattern resultPath putDbResumeToken CallAwsService].
  destruct (as_string _) as [tok'|]; [|done].
  intros [= <- <-].
  assert (pending (park tok' {| parked_input := st;
                                parked_resultPath := Some DISCARD |} w2) !! tok'
          = Some {| parked_input := st; parked_resultPath := Some DISCARD |})
    as Hpk by apply lookup_insert_eq.
  split; [done|].
  intros w' sig out Hsame Htok Hout.
  exists (release tok' (Some st) w').
  split.
  { unfold Aws.sendTaskSuccess. rewrite Htok, Hout. cbn [as_string].
    by rewrite Hsame, Hpk. }
  assert (resumed (release tok' (Some st) w') !! tok' = Some (Some st))
    as Hout' by apply lookup_insert_eq.
  split; [done|].
  unfold step, step_on. by rewrite Hout', Hst.
Qed.

Lemma C10_pause_passes_input_on_witness :
  pending Example.parked !! "h1"
    = Some {| parked_input := Example.app_state;
              parked_resultPath := Some DISCARD |}
  ∧ ∀ w' sig out,
      pending w' !! "h1" = pending Example.parked !! "h1" →
      json_get ["TaskToken"] sig = Some (JStr "h1") →
      json_get ["Output"] sig = Some out →
      ∃ w'',
        Aws.sendTaskSuccess sig w' = inr (JObj ∅, w'')
        ∧ resumed w'' !! "h1" = Some (Some Example.app_state)
        ∧ step Example.app (Example.task_ctx "h1") (Waiting "pause" "h1") w''
          = (Running "after" Example.app_state ∅, w'').
Proof.
  apply (C10_pause_passes_input_on Example.app "pause" (Some "after")
           Example.p0 (Example.task_ctx "h1") Example.app_state ∅
           Example.empty "h1" Example.parked);
    vm_compute; reflexivity.
Defined.

(** ** The resume state machine *)



(** C2, as the spec states it, fails: with a stored record whose token the
    engine rejects, the signal call is made, the execution ends, no delete
    call follows and the record is still stored. *)
Lemma C2_counterexample :
  ∃ c w', resume Example.p0 (JObj ∅) (Example.event "job-42") Example.stale
            = (c, w')
    ∧ terminal c = true
    ∧ List.filter is_signal (new_calls Example.stale w')
        = [signal_call (JStr "h1") false]
    ∧ List.filter is_delete (new_calls Example.stale w') = []
    ∧ table w' !! "job-42" = Some (token_item (JStr "job-42") (JStr "h1")).
Proof. do 2 eexists. split; [reflexivity|]. vm_compute. done. Qed.

(** C2, amended.  The delete step follows the signal exactly when the
    engine accepted it: then the record is deleted and the execution
    succeeds.  When the engine rejects the signal the execution fails at
    [sendTaskSuccess], no delete is attempted and the record stays. *)
Theorem C2_delete_after_accepted_signal p ctx ev w id item tok :
  event_like ev →
  resolve ctx (JObj ev) (pathToIdWorkflow p) = Some (JStr id) →
  table w !! id = Some item →
  item_token item = Some (JStr tok) →
  ∃ c w', resume p ctx ev w = (c, w') ∧
    match pending w !! tok with
    | Some _ =>
        c = Succeeded (JObj ∅)
        ∧ new_calls w w' = [lookup_call (JStr id) true;
                            signal_call (JStr tok) true;
                            delete_call (JStr id) true]
        ∧ table w' = delete id (table w)
    | None =>
        c = Failed "sendTaskSuccess" Sfn_TaskDoesNotExist
        ∧ new_calls w w' = [lookup_call (JStr id) true;
                            signal_call (JStr tok) false]
        ∧ table w' = table w
    end.
Proof.
  intros Hev Hid Hitem Htok. rewrite resume_eq, Hid. cbn zeta.
  rewrite Hitem. cbn [mbind option_bind]. rewrite Htok.
  destruct (pending w !! tok) as [pk|].
  - rewrite (resolve_after_signal _ _ _ _ _ id Hev Hid).
    do 2 eexists. split; [reflexivity|]. split; [done|]. split; [|done].
    apply new_calls_app. by calls_of w.
  - do 2 eexists. split; [reflexivity|]. split; [done|]. split; [|done].
    apply new_calls_app. by calls_of w.
Qed.

Lemma C2_delete_after_accepted_signal_witness :
  ∃ c w', resume Example.p0 (JObj ∅) (Example.event "job-42") Example.parked
            = (c, w')
    ∧ c = Succeeded (JObj ∅)
    ∧ new_calls Example.parked w' = [lookup_call (JStr "job-42") true;
                                     signal_call (JStr "h1") true;
                                     delete_call (JStr "job-42") true]
    ∧ table w' = delete "job-42" (table Example.parked).
Proof.
  apply (C2_delete_after_accepted_signal Example.p0 (JObj ∅)
           (Example.event "job-42") Example.parked "job-42"
           (token_item (JStr "job-42") (JStr "h1")) "h1");
    vm_compute; done.
Defined.

(** C5, as the spec states it, fails: the lookup asks for an eventually
    consistent read.  Right after the accepted insert, a lookup answered by
    a copy that has not received it finds no record; right after the
    delete, a lookup answered by a copy that has not received the delete
    still reads the handle. *)
Lemma C5_counterexample :
  ∃ s1 out1 s2 out2 s3 out3 s4,
    Lag.exec_task 0 (putDbResumeToken Example.p0) (Example.task_ctx "h1")
      Example.app_state ∅ (Lag.settled Example.empty) = (TaskWaiting "h1", s1)
    ∧ table (Lag.now s1) !! "job-42"
      = Some (token_item (JStr "job-42") (JStr "h1"))
    ∧ Lag.exec_task 1 (getResumeToken Example.p0) (JObj ∅)
        (JObj (Example.event "job-42")) ∅ s1 = (TaskSucceeded out1, s2)
    ∧ json_get ["getResumeToken"; "Item"] out1 = None
    ∧ Lag.exec_task 0 (deleteResumeToken Example.p0) (JObj ∅)
        (JObj (Example.event "job-42")) ∅ s2 = (TaskSucceeded out2, s3)
    ∧ table (Lag.now s3) !! "job-42" = None
    ∧ Lag.exec_task 1 (getResumeToken Example.p0) (JObj ∅)
        (JObj (Example.event "job-42")) ∅ s3 = (TaskSucceeded out3, s4)
    ∧ json_get token_path out3 = Some (JStr "h1").
Proof.
  do 7 eexists.
  split; [reflexivity|]. split; [by vm_compute|].
  split; [reflexivity|]. split; [by vm_compute|].
  split; [reflexivity|]. split; [by vm_compute|].
  split; [reflexivity|]. by vm_compute.
Qed.

(** C5, amended.  Round trip through the three tasks that touch the table:
    once the pause task has stored the token [h] for a job id, the table
    holds it, and the lookup task answers with what the copy it reaches
    holds for the id; it reads [h] back at
    [$.getResumeToken.Item.token.S] when that copy has received the insert.
    After the delete task the table holds no record for the id, and the
    lookup answers without an [Item] when the copy it reaches has received
    the delete.  A read that does not lag reaches the table itself. *)
Theorem C5_round_trip p ctxP st ctx ev s id h s1 lagP lag lagD lag' :
  resolve ctxP st (pathToIdPauseTask p) = Some (JStr id) →
  resolve ctx (JObj ev) (pathToIdWorkflow p) = Some (JStr id) →
  Lag.exec_task lagP (putDbResumeToken p) ctxP st ∅ s = (TaskWaiting h, s1) →
  ∃ out2 s2 out3 s3 out4 s4,
    table (Lag.now s1) !! id = Some (token_item (JStr id) (JStr h))
    ∧ Lag.exec_task lag (getResumeToken p) ctx (JObj ev) ∅ s1
      = (TaskSucceeded out2, s2)
    ∧ json_get ["getResumeToken"] out2
      = Some (get_result (Lag.read_from lag s1 !! id))
    ∧ (Lag.read_from lag s1 !! id = table (Lag.now s1) !! id →
       json_get token_path out2 = Some (JStr h))
    ∧ Lag.exec_task lagD (deleteResumeToken p) ctx (JObj ev) ∅ s2
      = (TaskSucceeded out3, s3)
    ∧ table (Lag.now s3) !! id = None
    ∧ Lag.exec_task lag' (getResumeToken p) ctx (JObj ev) ∅ s3
      = (TaskSucceeded out4, s4)
    ∧ json_get ["getResumeToken"] out4
      = Some (get_result (Lag.read_from lag' s3 !! id))
    ∧ (Lag.read_from lag' s3 !! id = table (Lag.now s3) !! id →
       json_get ["getResumeToken"; "Item"] out4 = None)
    ∧ Lag.read_from 0 s1 = table (Lag.now s1)
    ∧ Lag.read_from 0 s3 = table (Lag.now s3).
Proof.
  intros HidP Hid Hput.
  assert (table (Lag.now s1) !! id = Some (token_item (JStr id) (JStr h)))
    as Hstored.
  { revert Hput. unfold Lag.exec_task, exec_task_on.
    rewrite putDbResumeToken_request, HidP.
    destruct (json_get ["Task"; "Token"] ctxP) as [tokv|] eqn:Htok; [|done].
    unfold call_aws.
    change (dispatch _ _ _ _ (Lag.now s)) with
      (match putItem (put_request (JStr id) tokv) (table (Lag.now s)) with
       | inr (res, t) => inr (res, with_table t (Lag.now s))
       | inl e => inl e
       end : ErrorName + json * World).
    rewrite putItem_put_request.
    destruct (table (Lag.now s) !! id); [done|].
    cbn [integrationPattern putDbResumeToken CallAwsService].
    destruct tokv as [| | |tok| |]; try done.
    intros [= <- <-]. cbn [Lag.now Lag.after table park with_call with_table].
    apply lookup_insert_eq. }
  unfold Lag.exec_task at 1. rewrite exec_getResumeToken_on, Hid.
  do 6 eexists. split; [done|]. split; [reflexivity|].
  split; [cbn [json_get]; by rewrite lookup_insert_eq|].
  split; [intros ->; by rewrite token_after_lookup, Hstored|].
  unfold Lag.exec_task at 1. rewrite exec_deleteResumeToken_on, Hid.
  split; [reflexivity|].
  cbn [Lag.now Lag.after table with_call with_table].
  split; [apply lookup_delete_eq|].
  unfold Lag.exec_task at 1. rewrite exec_getResumeToken_on, Hid.
  split; [reflexivity|].
  split; [cbn [json_get]; by rewrite lookup_insert_eq|].
  split; [|done].
  intros ->. cbn [Lag.now Lag.after table with_call with_table].
  rewrite lookup_delete_eq. cbn [json_get get_result].
  by rewrite lookup_insert_eq, lookup_empty.
Qed.

Lemma C5_round_trip_witness :
  ∃ out2 s2 out3 s3 out4 s4,
    table (Lag.now Example.fresh) !! "job-42"
      = Some (token_item (JStr "job-42") (JStr "h1"))
    ∧ Lag.exec_task 0 (getResumeToken Example.p0) (JObj ∅)
        (JObj (Example.event "job-42")) ∅ Example.fresh
      = (TaskSucceeded out2, s2)
    ∧ json_get ["getResumeToken"] out2
      = Some (get_result
                (Lag.read_from 0 Example.fresh !! "job-42"))
    ∧ (Lag.read_from 0 Example.fresh !! "job-42"
         = table (Lag.now Example.fresh) !! "job-42" →
       json_get token_path out2 = Some (JStr "h1"))
    ∧ Lag.exec_task 0 (deleteResumeToken Example.p0) (JObj ∅)
        (JObj (Example.event "job-42")) ∅ s2 = (TaskSucceeded out3, s3)
    ∧ table (Lag.now s3) !! "job-42" = None
    ∧ Lag.exec_task 0 (getResumeToken Example.p0) (JObj ∅)
        (JObj (Example.event "job-42")) ∅ s3 = (TaskSucceeded out4, s4)
    ∧ json_get ["getResumeToken"] out4
      = Some (get_result (Lag.read_from 0 s3 !! "job-42"))
    ∧ (Lag.read_from 0 s3 !! "job-42" = table (Lag.now s3) !! "job-42" →
       json_get ["getResumeToken"; "Item"] out4 = None)
    ∧ Lag.read_from 0 Example.fresh
      = table (Lag.now Example.fresh)
    ∧ Lag.read_from 0 s3 = table (Lag.now s3).
Proof.
  apply (C5_round_trip Example.p0 (Example.task_ctx "h1") Example.app_state
           (JObj ∅) (Example.event "job-42")
           (Lag.settled Example.empty) "job-42" "h1" Example.fresh 0 0 0 0);
    vm_compute; reflexivity.
Defined.

(** The calls of a resume attempt: a lookup, then a signal, then a delete,
    cut short at the first step that fails. *)
Lemma resume_trace p ctx ev w :
  ∃ tr, calls (snd (resume p ctx ev w)) = (calls w ++ tr)%list ∧
    (tr = []
     ∨ (∃ v ok, tr = [lookup_call v ok])
     ∨ (∃ v tok ok, tr = [lookup_call v true; signal_call tok ok])
     ∨ (∃ v tok d ok,
          tr = [lookup_call v true; signal_call tok true; delete_call d ok])).
Proof.
  rewrite resume_eq. cbn zeta.
  repeat case_match; subst; cbn [snd];
    eexists; (split; [calls_of w; try reflexivity; by rewrite app_nil_r|]);
    eauto 10.
Qed.

Lemma signal_call_output tok ok :
  json_get ["Output"] (call_request (signal_call tok ok)) = Some resume_output.
Proof. reflexivity. Qed.

(** C8. Every resume signal carries the same output, the literal object of
    the source; neither the event nor anything else in the state of the
    execution enters it. *)
Theorem C8_fixed_resume_output p ctx ev w :
  Forall (λ c, json_get ["Output"] (call_request c) = Some resume_output)
    (List.filter is_signal (new_calls w (snd (resume p ctx ev w))))
  ∧ ∀ ctx' input,
      match eval_param ctx' input (parameters sendTaskSuccess) with
      | Some req => json_get ["Output"] req = Some resume_output
      | None => True
      end.
Proof.
  split.
  - destruct (resume_trace p ctx ev w) as (tr & Htr & Hshape).
    rewrite (new_calls_app _ _ _ Htr).
    destruct Hshape as [->|[(v & ok & ->)|[(v & tok & ok & ->)|(v & tok & d & ok & ->)]]];
      cbn; repeat constructor.
  - intros ctx' input. rewrite sendTaskSuccess_request.
    by destruct (json_get token_path input).
Qed.

(** C9. On an event that has no [getResumeToken] and no [sendTaskSuccess]
    field, the lookup step only adds the first and the signal step only
    adds the second: every field of the event is still there with its
    value, the path to the job id denotes in the delete step what it denoted
    in the lookup step, and the delete step deletes the record that was
    looked up. *)
Theorem C9_event_fields_kept p ctx ev w id item tok pk :
  event_like ev →
  resolve ctx (JObj ev) (pathToIdWorkflow p) = Some (JStr id) →
  table w !! id = Some item →
  item_token item = Some (JStr tok) →
  pending w !! tok = Some pk →
  ∃ s1 w1 s2 w2 w3,
    step (definition p) ctx (start (definition p) (JObj ev)) w
      = (Running "sendTaskSuccess" (JObj s1) ∅, w1)
    ∧ step (definition p) ctx (Running "sendTaskSuccess" (JObj s1) ∅) w1
      = (Running "deleteResumeToken" (JObj s2) ∅, w2)
    ∧ step (definition p) ctx (Running "deleteResumeToken" (JObj s2) ∅) w2
      = (Succeeded (JObj ∅), w3)
    ∧ (∀ k, k ≠ "getResumeToken" → s1 !! k = ev !! k)
    ∧ (∀ k, k ≠ "sendTaskSuccess" → s2 !! k = s1 !! k)
    ∧ (∀ k v, ev !! k = Some v → s1 !! k = Some v ∧ s2 !! k = Some v)
    ∧ resolve ctx (JObj s2) (pathToIdWorkflow p)
      = resolve ctx (JObj ev) (pathToIdWorkflow p)
    ∧ new_calls w w1 = [lookup_call (JStr id) true]
    ∧ new_calls w2 w3 = [delete_call (JStr id) true]
    ∧ table w3 = delete id (table w).
Proof.
  intros Hev Hid Hitem Htok Hpk.
  unfold start. change (StartAt (definition p)) with "getResumeToken".
  rewrite step_getResumeToken, Hid, Hitem.
  do 5 eexists. split; [reflexivity|].
  rewrite step_sendTaskSuccess, token_after_lookup, Htok.
  cbn [pending with_call]. rewrite Hpk.
  split; [reflexivity|].
  rewrite step_deleteResumeToken, (resolve_after_signal _ _ _ _ _ id Hev Hid).
  split; [reflexivity|].
  split; [by intros k Hk; rewrite lookup_insert_ne|].
  split; [by intros k Hk; rewrite lookup_insert_ne|].
  split.
  { destruct Hev as [Hget Hsend]. intros k v Hk.
    assert (k ≠ "getResumeToken") by congruence.
    assert (k ≠ "sendTaskSuccess") by congruence.
    by rewrite !lookup_insert_ne. }
  split; [done|].
  split; [by apply new_calls_app|].
  split; [by apply new_calls_app|done].
Qed.

Lemma C9_event_fields_kept_witness :
  ∃ s1 w1 s2 w2 w3,
    step (definition Example.p0) (JObj ∅)
      (start (definition Example.p0) (JObj (Example.event "job-42")))
      Example.parked
      = (Running "sendTaskSuccess" (JObj s1) ∅, w1)
    ∧ step (definition Example.p0) (JObj ∅)
        (Running "sendTaskSuccess" (JObj s1) ∅) w1
      = (Running "deleteResumeToken" (JObj s2) ∅, w2)
    ∧ step (definition Example.p0) (JObj ∅)
        (Running "deleteResumeToken" (JObj s2) ∅) w2
      = (Succeeded (JObj ∅), w3)
    ∧ (∀ k, k ≠ "getResumeToken" → s1 !! k = Example.event "job-42" !! k)
    ∧ (∀ k, k ≠ "sendTaskSuccess" → s2 !! k = s1 !! k)
    ∧ (∀ k v, Example.event "job-42" !! k = Some v →
              s1 !! k = Some v ∧ s2 !! k = Some v)
    ∧ resolve (JObj ∅) (JObj s2) (pathToIdWorkflow Example.p0)
      = resolve (JObj ∅) (JObj (Example.event "job-42"))
          (pathToIdWorkflow Example.p0)
    ∧ new_calls Example.parked w1 = [lookup_call (JStr "job-42") true]
    ∧ new_calls w2 w3 = [delete_call (JStr "job-42") true]
    ∧ table w3 = delete "job-42" (table Example.parked).
Proof.
  apply (C9_event_fields_kept Example.p0 (JObj ∅) (Example.event "job-42")
           Example.parked "job-42" (token_item (JStr "job-42") (JStr "h1"))
           "h1" {| parked_input := Example.app_state;
                   parked_resultPath := Some DISCARD |});
    vm_compute; done.
Defined.


(** C4. The resume state machine is the chain lookup, signal, delete.  An
    execution makes its calls in that order and stops at the first step
    that fails, so every call but the last was accepted; it succeeds
    exactly when all three calls were made and accepted.  For a
    [pathToIdWorkflow] that names one node, each step is made once the one
    before it has succeeded: the lookup whenever the event holds a value at
    the path, with that value as the key; the signal whenever the copy of
    the table that answers the lookup holds an item with a token, with that
    token; the delete whenever the engine accepted the signal, with the key
    of the lookup on an event EventBridge delivers, and then the execution
    succeeds. *)
Theorem C4_three_steps_in_order p ctx lag ev s :
  is_Some (parse_path (pathToIdWorkflow p)) →
  StartAt (definition p) = "getResumeToken"
  ∧ map fst (States (definition p))
    = ["getResumeToken"; "sendTaskSuccess"; "deleteResumeToken"]
  ∧ map (λ s, Next (snd s)) (States (definition p))
    = [Some "sendTaskSuccess"; Some "deleteResumeToken"; None]
  ∧ ∃ c s' tr,
      Lag.resume p ctx lag ev s = (c, s')
      ∧ calls (Lag.now s') = (calls (Lag.now s) ++ tr)%list
      ∧ terminal c = true
      ∧ map call_op tr `prefix_of`
          [("dynamodb", "getItem"); ("sfn", "sendTaskSuccess");
           ("dynamodb", "deleteItem")]
      ∧ (∀ i c', tr !! i = Some c' → S i < length tr → call_accepted c' = true)
      ∧ (DONE c ↔ length tr = 3 ∧ Forall (λ c', call_accepted c' = true) tr)
      ∧ (∀ v, resolve ctx (JObj ev) (pathToIdWorkflow p) = Some v →
           ∃ ok, tr !! 0 = Some (lookup_call v ok))
      ∧ (∀ g, tr !! 0 = Some g →
           ∃ v, resolve ctx (JObj ev) (pathToIdWorkflow p) = Some v
                ∧ call_request g = get_request v)
      ∧ (∀ id item tokv,
           resolve ctx (JObj ev) (pathToIdWorkflow p) = Some (JStr id) →
           Lag.read_from lag s !! id = Some item →
           item_token item = Some tokv →
           ∃ ok, tr !! 1 = Some (signal_call tokv ok))
      ∧ (∀ sg, tr !! 1 = Some sg →
           ∃ id item tokv,
             resolve ctx (JObj ev) (pathToIdWorkflow p) = Some (JStr id)
             ∧ Lag.read_from lag s !! id = Some item
             ∧ item_token item = Some tokv
             ∧ call_request sg = signal_request tokv)
      ∧ (event_like ev →
         ∀ sg, tr !! 1 = Some sg → call_accepted sg = true →
           ∃ id, resolve ctx (JObj ev) (pathToIdWorkflow p) = Some (JStr id)
                 ∧ tr !! 2 = Some (delete_call (JStr id) true)
                 ∧ DONE c)
      ∧ (∀ d, tr !! 2 = Some d →
           ∃ v, call_request d = key_request v
                ∧ (event_like ev →
                   resolve ctx (JObj ev) (pathToIdWorkflow p) = Some v)).
Proof.
  intros _.
  do 3 (split; [reflexivity|]).
  rewrite lag_resume_eq. cbn zeta.
  set (w := Lag.now s).
  destruct (resolve ctx (JObj ev) (pathToIdWorkflow p)) as [v|] eqn:Hid.
  2: { eexists _, _, []. split_and!. all: lag_trace_fact w. }
  assert ((∃ id, v = JStr id) ∨ (∀ id, v ≠ JStr id)) as [[id ->]|Hv]
    by (destruct v; eauto).
  2: { eexists _, _, [lookup_call v false].
       split; [by destruct v as [| | |id| |]; try done; destruct (Hv id)|].
       split_and!. all: lag_trace_fact w. }
  destruct (Lag.read_from lag s !! id ≫= item_token) as [tokv|] eqn:Htok.
  2: { eexists _, _, [lookup_call (JStr id) true]. split_and!. all: lag_trace_fact w. }
  destruct (Lag.read_from lag s !! id) as [item|] eqn:Hitem; [|done].
  cbn [mbind option_bind] in Htok.
  assert ((∃ tok, tokv = JStr tok) ∨ (∀ tok, tokv ≠ JStr tok)) as [[tok ->]|Hv]
    by (destruct tokv; eauto).
  2: { eexists _, _, [lookup_call (JStr id) true; signal_call tokv false].
       split; [by destruct tokv as [| | |tok| |]; try done; destruct (Hv tok)|].
       split_and!. all: lag_trace_fact w. }
  destruct (pending w !! tok) as [pk|].
  2: { eexists _, _, [lookup_call (JStr id) true; signal_call (JStr tok) false].
       split_and!. all: lag_trace_fact w. }
  set (s2 := <["sendTaskSuccess" := JObj ∅]> _).
  assert (event_like ev →
          resolve ctx (JObj s2) (pathToIdWorkflow p) = Some (JStr id)) as Hsame.
  { intros Hev. subst s2. by apply resolve_after_signal. }
  destruct (resolve ctx (JObj s2) (pathToIdWorkflow p)) as [v'|] eqn:Hid'.
  2: { eexists _, _, [lookup_call (JStr id) true; signal_call (JStr tok) true].
       split_and!. all: lag_trace_fact w. }
  assert ((∃ id', v' = JStr id') ∨ (∀ id', v' ≠ JStr id')) as [[id' ->]|Hv']
    by (destruct v'; eauto).
  - eexists _, _, [lookup_call (JStr id) true; signal_call (JStr tok) true;
                   delete_call (JStr id') true].
    split_and!. all: lag_trace_fact w.
  - eexists _, _, [lookup_call (JStr id) true; signal_call (JStr tok) true;
                   delete_call v' false].
    split; [by destruct v' as [| | |id'| |]; try done; destruct (Hv' id')|].
    split_and!. all: lag_trace_fact w.
Qed.

Lemma C4_three_steps_in_order_witness :
  ∃ c s' tr,
    Lag.resume Example.p0 (JObj ∅) 0 (Example.event "job-42") Example.fresh
      = (c, s')
    ∧ calls (Lag.now s') = (calls (Lag.now Example.fresh) ++ tr)%list
    ∧ tr = [lookup_call (JStr "job-42") true; signal_call (JStr "h1") true;
            delete_call (JStr "job-42") true]
    ∧ DONE c.
Proof.
  destruct (C4_three_steps_in_order Example.p0 (JObj ∅) 0
              (Example.event "job-42") Example.fresh)
    as (_ & _ & _ & c & s' & tr & Hrun & Hcalls & _).
  { vm_compute. by eexists. }
  exists c, s', tr. split; [done|]. split; [done|].
  revert Hrun Hcalls. vm_compute. intros [= <- <-] [= <-].
  split; [done|]. by eexists.
Defined.

(** ** Two attempts on one record *)

Section TwoAttempts.
Import Race.
Context (p : props) (ev : gmap string json) (id tok : string) (item : json).
Hypothesis Hev : event_like ev.
Hypothesis Htok : item_token item = Some (JStr tok).


(** The same for a step whose lookup is answered by a copy of the
    table. *)
Lemma step_phase_on (replica : gmap string json) (sees : bool) ctx φ st wt w :
  resolve ctx (JObj ev) (pathToIdWorkflow p) = Some (JStr id) →
  agrees id tok item st wt w →
  replica !! id = (if sees then Some item else None) →
  ∃ w' d,
    step_on replica (definition p) ctx (config_of ev item φ) w
      = (config_of ev item (phase_step_on sees φ st wt).1.1, w')
    ∧ agrees id tok item (phase_step_on sees φ st wt).1.2
        (phase_step_on sees φ st wt).2 w'
    ∧ calls w' = (calls w ++ d)%list
    ∧ signalled (phase_step_on sees φ st wt).1.1
      = signalled φ + length (List.filter is_signal d)
    ∧ accepted (phase_step_on sees φ st wt).1.1
      = accepted φ + length (List.filter is_accepted_signal d).
Proof.
  intros Hid [Htable Hwaits] Hsees.
  destruct φ; cbn [config_of phase_step_on phase_step].
  - (* lookup *)
    rewrite step_getResumeToken_on, Hid, Hsees.
    exists (with_call (lookup_call (JStr id) true) w),
      [lookup_call (JStr id) true].
    by destruct sees.
  - (* signal *)
    rewrite step_sendTaskSuccess_on, token_after_lookup, Htok.
    destruct wt.
    + destruct Hwaits as [pk Hpk]. rewrite Hpk.
      eexists _, [signal_call (JStr tok) true].
      split; [reflexivity|]. split; [|done].
      split; [done|]. cbn. apply lookup_delete_eq.
    + rewrite Hwaits. eexists _, [signal_call (JStr tok) false]. done.
  - (* the token is not there *)
    rewrite step_sendTaskSuccess_on, token_after_lookup.
    exists w, []. by rewrite app_nil_r.
  - (* delete *)
    rewrite step_deleteResumeToken_on,
      (resolve_after_signal _ _ _ _ _ id Hev Hid).
    eexists _, [delete_call (JStr id) true].
    split; [reflexivity|]. split; [|done].
    split; [|done]. cbn. apply lookup_delete_eq.
  - exists w, []. by rewrite app_nil_r.
  - exists w, []. by rewrite app_nil_r.
  - exists w, []. by rewrite app_nil_r.
Qed.

(** The record stays deleted. *)
Lemma stored_stays sees φ st wt :
  st = false → (phase_step_on sees φ st wt).1.2 = false.
Proof. intros ->. by destruct φ, wt, sees. Qed.

(** What a read finds under the key of the record. *)
Lemma read_behind lag s st wt :
  agrees id tok item st wt (Lag.now s) →
  behind id item st (Lag.earlier s) →
  ∃ sees,
    Lag.read_from lag s !! id = (if st || sees then Some item else None)
    ∧ (lag = 0 → sees = false).
Proof.
  intros [Htable _] Hbehind. unfold Lag.read_from, Lag.copies.
  destruct lag as [|n]; cbn [lookup list_lookup default].
  { exists false. by rewrite orb_false_r. }
  destruct (Lag.earlier s !! n) as [t|] eqn:Hn; cbn [default].
  - unfold behind in Hbehind. rewrite Forall_lookup in Hbehind.
    destruct (Hbehind n t Hn) as [Hsome|[-> Hnone]].
    + exists true. by rewrite orb_true_r.
    + by exists false.
  - exists st. rewrite orb_diag. by split.
Qed.

Lemma behind_after s st st' wt :
  agrees id tok item st wt (Lag.now s) →
  behind id item st (Lag.earlier s) →
  (st = false → st' = false) →
  behind id item st' (Lag.copies s).
Proof.
  intros [Htable _] Hbehind Hst. apply Forall_cons. split.
  - rewrite Htable. destruct st; [by left|right; auto].
  - eapply Forall_impl; [exact Hbehind|]. intros t [?|[? ?]]; [by left|].
    right. auto.
Qed.

Context (ctx1 ctx2 : json).
Hypothesis Hid1 : resolve ctx1 (JObj ev) (pathToIdWorkflow p) = Some (JStr id).
Hypothesis Hid2 : resolve ctx2 (JObj ev) (pathToIdWorkflow p) = Some (JStr id).

Lemma sim_step w0 s x turn :
  sim ev id tok item w0 s x →
  ∃ sees,
    (turn.2 = 0 → sees = false)
    ∧ sim ev id tok item w0 (astep (turn.1, sees) s)
        (Lag.step2 (definition p) ctx1 ctx2 turn x).
Proof.
  destruct x as [[c1 c2] z], s as [φ1 φ2 st wt], turn as [first lag].
  unfold sim at 1. cbn [fst snd ph1 ph2 stored waits].
  intros (-> & -> & Hagree & Hbehind & tr & Htr & Hsig & Hacc).
  destruct (read_behind lag z st wt Hagree Hbehind) as (sees & Hread & Hfresh).
  exists sees. split; [done|].
  destruct first; cbn [Lag.step2 astep fst snd ph1 ph2 stored waits];
    unfold Lag.step.
  - destruct (step_phase_on _ (st || sees) ctx1 φ1 st wt _ Hid1 Hagree Hread)
      as (w' & d & -> & Hagree' & Hd & Hsig' & Hacc').
    pose proof (stored_stays (st || sees) φ1 st wt) as Hstays.
    destruct (phase_step_on (st || sees) φ1 st wt) as [[φ st'] wt'].
    unfold sim. cbn [fst snd ph1 ph2 stored waits Lag.now Lag.earlier Lag.after] in *.
    split_and!; [done..|by eapply behind_after|]. exists (tr ++ d)%list.
    split; [by rewrite Hd, Htr, <- app_assoc|].
    rewrite !List.filter_app, !length_app. lia.
  - destruct (step_phase_on _ (st || sees) ctx2 φ2 st wt _ Hid2 Hagree Hread)
      as (w' & d & -> & Hagree' & Hd & Hsig' & Hacc').
    pose proof (stored_stays (st || sees) φ2 st wt) as Hstays.
    destruct (phase_step_on (st || sees) φ2 st wt) as [[φ st'] wt'].
    unfold sim. cbn [fst snd ph1 ph2 stored waits Lag.now Lag.earlier Lag.after] in *.
    split_and!; [done..|by eapply behind_after|]. exists (tr ++ d)%list.
    split; [by rewrite Hd, Htr, <- app_assoc|].
    rewrite !List.filter_app, !length_app. lia.
Qed.

Lemma sim_interleave w0 schedule s x :
  sim ev id tok item w0 s x →
  ∃ aschedule,
    follows aschedule schedule
    ∧ sim ev id tok item w0 (arun aschedule s)
        (Lag.interleave (definition p) ctx1 ctx2 schedule x).
Proof.
  revert s x. induction schedule as [|turn schedule IH]; intros s x Hsim.
  { exists []. split; [constructor|done]. }
  destruct (sim_step w0 s x turn Hsim) as (sees & Hfresh & Hsim').
  destruct (IH _ _ Hsim') as (aschedule & Hfollows & Hsim'').
  exists ((turn.1, sees) :: aschedule). split; [|done].
  by constructor.
Qed.

End TwoAttempts.

(** *** The abstract executions *)

Section AbstractRuns.
Import Race.
Local Open Scope nat_scope.

Lemma inv_step turn s : inv s = true → inv (astep turn s) = true.
Proof. by destruct s as [[] [] [] []], turn as [[] []]. Qed.

Lemma inv_arun schedule s : inv s = true → inv (arun schedule s) = true.
Proof.
  revert s. induction schedule as [|turn schedule IH]; intros s Hs; [done|].
  apply IH. by apply inv_step.
Qed.

Lemma late_step turn s : late s = true → late (astep turn s) = true.
Proof. by destruct s as [[] [] [] []], turn as [[] []]. Qed.

Lemma late_arun schedule s : late s = true → late (arun schedule s) = true.
Proof.
  revert s. induction schedule as [|turn schedule IH]; intros s Hs; [done|].
  apply IH. by apply late_step.
Qed.

Lemma late_fresh_step first s :
  late_fresh s = true → late_fresh (astep (first, false) s) = true.
Proof. by destruct s as [[] [] [] []], first. Qed.

Lemma late_fresh_arun schedule s :
  Forall (λ turn, turn.2 = false) schedule →
  late_fresh s = true → late_fresh (arun schedule s) = true.
Proof.
  intros Hall. revert s.
  induction Hall as [|[first sees] schedule Hsees _ IH]; intros s Hs; [done|].
  cbn in Hsees. subst sees. apply IH. by apply late_fresh_step.
Qed.

Lemma remaining_step turn s :
  remaining (ph1 (astep turn s)) ≤ remaining (ph1 s) - (if turn.1 then 1 else 0)
  ∧ remaining (ph2 (astep turn s)) ≤ remaining (ph2 s) - (if turn.1 then 0 else 1).
Proof. destruct s as [[] [] [] []], turn as [[] []]; cbn; lia. Qed.

Lemma remaining_arun schedule s :
  remaining (ph1 (arun schedule s))
    ≤ remaining (ph1 s) - turns true (who schedule)
  ∧ remaining (ph2 (arun schedule s))
    ≤ remaining (ph2 s) - turns false (who schedule).
Proof.
  revert s. induction schedule as [|turn schedule IH]; intros s.
  - cbn. lia.
  - cbn [arun fold_left]. destruct (IH (astep turn s)) as [IH1 IH2].
    destruct (remaining_step turn s) as [H1 H2].
    unfold arun in *. destruct turn as [[] sees];
      cbn [who map fst turns List.filter Bool.eqb length] in *;
      unfold turns, who in *; lia.
Qed.

Lemma remaining_terminal ev item φ :
  remaining φ = 0 → terminal (config_of ev item φ) = true.
Proof. by destruct φ. Qed.

(** The abstract turns of a schedule give each attempt the same steps,
    and their lookups read the table as it is where no read lags. *)
Lemma follows_who aschedule schedule :
  follows aschedule schedule → who aschedule = who schedule.
Proof.
  induction 1 as [|a t aschedule schedule [Hwho _] _ IH]; [done|].
  unfold who in *. cbn [map]. by rewrite Hwho, IH.
Qed.

Lemma follows_fresh aschedule schedule :
  follows aschedule schedule →
  Forall (λ turn, turn.2 = 0) schedule →
  Forall (λ turn, turn.2 = false) aschedule.
Proof.
  induction 1 as [|a t aschedule schedule [_ Hfresh] _ IH]; [done|].
  intros [Ht Hall]%Forall_cons. constructor; auto.
Qed.

(** What [inv] says once both attempts have ended. *)
Lemma inv_final s :
  inv s = true → remaining (ph1 s) = 0 → remaining (ph2 s) = 0 →
  1 ≤ signalled (ph1 s) + signalled (ph2 s) ≤ 2
  ∧ accepted (ph1 s) + accepted (ph2 s) ≤ 1
  ∧ (is_skipped (ph1 s) = true →
     is_done (ph2 s) = true ∧ signalled (ph1 s) + signalled (ph2 s) = 1)
  ∧ (is_skipped (ph2 s) = true →
     is_done (ph1 s) = true ∧ signalled (ph1 s) + signalled (ph2 s) = 1)
  ∧ (signalled (ph1 s) + signalled (ph2 s) = 1 →
     is_skipped (ph1 s) = true ∨ is_skipped (ph2 s) = true).
Proof.
  destruct s as [[] [] [] []]; cbn; intros; try done; (split_and!; try lia; auto).
Qed.

End AbstractRuns.

Lemma skipped_config ev item φ :
  SKIPPED (Race.config_of ev item φ) ↔ Race.is_skipped φ = true.
Proof. unfold SKIPPED. by destruct φ. Qed.

Lemma done_config ev item φ :
  DONE (Race.config_of ev item φ) ↔ Race.is_done φ = true.
Proof.
  unfold DONE. destruct φ; cbn; split; try done; try (by intros [? ?]).
  by eexists.
Qed.

(** C6, as the spec states it, fails: when both attempts look the record
    up before either deletes it, both signal the engine; the engine rejects
    the second signal and that attempt fails at [sendTaskSuccess] instead of
    ending in [SKIPPED].  No read lags here. *)
Lemma C6_counterexample :
  ∃ c1 c2 s',
    Lag.resume2 Example.p0 (JObj ∅) (JObj ∅) (Example.event "job-42")
      [(true, 0); (false, 0); (true, 0); (false, 0); (true, 0); (false, 0)]
      (Lag.settled Example.parked) = (c1, c2, s')
    ∧ List.filter is_signal (new_calls Example.parked (Lag.now s'))
        = [signal_call (JStr "h1") true; signal_call (JStr "h1") false]
    ∧ c1 = Succeeded (JObj ∅)
    ∧ c2 = Failed "sendTaskSuccess" Sfn_TaskDoesNotExist
    ∧ ¬ SKIPPED c2.
Proof. do 3 eexists. split; [reflexivity|]. vm_compute. done. Qed.

(** The same happens when the second attempt starts after the first has
    ended and its lookup is answered by a copy of the table from before
    the delete. *)
Example late_lookup_of_an_old_copy :
  ∃ c1 c2 s',
    Lag.resume2 Example.p0 (JObj ∅) (JObj ∅) (Example.event "job-42")
      [(true, 0); (true, 0); (true, 0); (false, 1); (false, 0); (false, 0)]
      (Lag.settled Example.parked) = (c1, c2, s')
    ∧ table (Lag.now s') !! "job-42" = None
    ∧ List.filter is_signal (new_calls Example.parked (Lag.now s'))
        = [signal_call (JStr "h1") true; signal_call (JStr "h1") false]
    ∧ c1 = Succeeded (JObj ∅)
    ∧ c2 = Failed "sendTaskSuccess" Sfn_TaskDoesNotExist.
Proof. do 3 eexists. split; [reflexivity|]. vm_compute. done. Qed.

(** C6, amended.  Two attempts on the event of a stored record that every
    copy of the table holds, taking their steps in any order and with
    lookups that may lag, both end.  One or two signal calls are made and
    the engine accepts at most one.  An attempt ends in [SKIPPED] only
    after the other one has succeeded, and then there was one signal call;
    conversely, one signal call means that an attempt was skipped.  When the
    engine waits for the token and the second attempt starts after the
    first has ended, the first succeeds; the second is skipped, or it
    signals with the token of an old copy, is rejected by the engine and
    fails at [sendTaskSuccess]; it is skipped when no read after the first
    attempt lags. *)
Theorem C6_two_attempts p ctx1 ctx2 ev s id item tok schedule :
  event_like ev →
  resolve ctx1 (JObj ev) (pathToIdWorkflow p) = Some (JStr id) →
  resolve ctx2 (JObj ev) (pathToIdWorkflow p) = Some (JStr id) →
  Lag.everywhere id item s →
  item_token item = Some (JStr tok) →
  (3 ≤ turns true (who schedule))%nat →
  (3 ≤ turns false (who schedule))%nat →
  ∃ c1 c2 s' signals,
    Lag.resume2 p ctx1 ctx2 ev schedule s = (c1, c2, s')
    ∧ signals = List.filter is_signal (new_calls (Lag.now s) (Lag.now s'))
    ∧ terminal c1 = true ∧ terminal c2 = true
    ∧ (1 ≤ length signals ≤ 2)%nat
    ∧ (length (List.filter is_accepted_signal
                 (new_calls (Lag.now s) (Lag.now s'))) ≤ 1)%nat
    ∧ (SKIPPED c1 → DONE c2 ∧ length signals = 1%nat)
    ∧ (SKIPPED c2 → DONE c1 ∧ length signals = 1%nat)
    ∧ (length signals = 1%nat → SKIPPED c1 ∨ SKIPPED c2)
    ∧ (is_Some (pending (Lag.now s) !! tok) →
       ∀ l1 l2 l3 rest,
         schedule = (true, l1) :: (true, l2) :: (true, l3) :: rest →
         DONE c1
         ∧ (SKIPPED c2 ∨ c2 = Failed "sendTaskSuccess" Sfn_TaskDoesNotExist)
         ∧ (Forall (λ turn, turn.2 = 0) rest → SKIPPED c2)).
Proof.
  intros Hev Hid1 Hid2 Hall Htok Hturns1 Hturns2.
  set (w := Lag.now s).
  set (wt := bool_decide (is_Some (pending w !! tok))).
  set (s0 := {| Race.ph1 := Race.PLookup; Race.ph2 := Race.PLookup;
                Race.stored := true; Race.waits := wt |}).
  apply Forall_cons in Hall as [Hitem Hearlier].
  assert (Race.sim ev id tok item w s0
            (start (definition p) (JObj ev), start (definition p) (JObj ev), s))
    as Hsim0.
  { split_and!; try done.
    - split; [done|]. subst s0 wt. cbn. case_bool_decide as Hw; [done|].
      by apply eq_None_not_Some.
    - eapply Forall_impl; [exact Hearlier|]. by left.
    - exists []. by rewrite app_nil_r. }
  destruct (sim_interleave p ev id tok item Hev Htok ctx1 ctx2 Hid1 Hid2
              w schedule s0 _ Hsim0) as (aschedule & Hfollows & Hsim).
  fold (Lag.resume2 p ctx1 ctx2 ev schedule s) in Hsim.
  destruct (Lag.resume2 p ctx1 ctx2 ev schedule s) as [[c1 c2] s'] eqn:Hrun.
  set (a := Race.arun aschedule s0) in *.
  destruct Hsim as (Hc1 & Hc2 & Hagree & _ & tr & Htr & Hsig & Hacc).
  cbn [fst snd] in *.
  assert (Race.inv a = true) as Hinv
    by (apply inv_arun; subst s0; by destruct wt).
  destruct (remaining_arun aschedule s0) as [Hrem1 Hrem2].
  rewrite (follows_who _ _ Hfollows) in Hrem1, Hrem2.
  fold a in Hrem1, Hrem2. cbn in Hrem1, Hrem2.
  assert (Race.remaining (Race.ph1 a) = 0%nat) as Hend1 by lia.
  assert (Race.remaining (Race.ph2 a) = 0%nat) as Hend2 by lia.
  destruct (inv_final a Hinv Hend1 Hend2) as (Hn & Ha & Hs1 & Hs2 & Hone).
  exists c1, c2, s', (List.filter is_signal (new_calls w (Lag.now s'))).
  rewrite (new_calls_app _ _ _ Htr), Hsig, Hacc, Hc1, Hc2.
  rewrite !skipped_config, !done_config.
  split_and!; try done; try lia; try (by apply remaining_terminal).
  intros Hwaits l1 l2 l3 rest ->.
  assert (wt = true) as Hwt by (subst wt; by apply bool_decide_eq_true).
  apply Forall2_cons_inv_r in Hfollows
    as ([f1 b1] & a1 & [Hf1 _] & Hfollows & ->).
  apply Forall2_cons_inv_r in Hfollows
    as ([f2 b2] & a2 & [Hf2 _] & Hfollows & ->).
  apply Forall2_cons_inv_r in Hfollows
    as ([f3 b3] & arest & [Hf3 _] & Hfollows & ->).
  cbn in Hf1, Hf2, Hf3. subst f1 f2 f3.
  assert (Race.arun [(true, b1); (true, b2); (true, b3)] s0
          = {| Race.ph1 := Race.PDone; Race.ph2 := Race.PLookup;
               Race.stored := false; Race.waits := false |}) as Hfirst
    by (subst s0; rewrite Hwt; by destruct b1, b2, b3).
  assert (a = Race.arun arest
                (Race.arun [(true, b1); (true, b2); (true, b3)] s0)) as Ha3
    by done.
  rewrite Hfirst in Ha3.
  assert (Race.late a = true) as Hlate
    by (rewrite Ha3; apply late_arun; reflexivity).
  split_and!.
  - apply done_config. revert Hlate. unfold Race.late.
    by destruct (Race.ph1 a).
  - revert Hlate Hend2. unfold Race.late.
    destruct (Race.ph2 a); cbn; rewrite ?andb_false_r; try done; intros _ _.
    + by left.
    + by right.
  - intros Hfresh. apply skipped_config.
    assert (Race.late_fresh a = true) as Hlate'.
    { rewrite Ha3. apply late_fresh_arun; [|reflexivity].
      by eapply follows_fresh. }
    revert Hlate' Hend2. unfold Race.late_fresh.
    destruct (Race.ph2 a); cbn; rewrite ?andb_false_r; done.
Qed.

Lemma C6_two_attempts_witness :
  ∃ c1 c2 s' signals,
    Lag.resume2 Example.p0 (JObj ∅) (JObj ∅) (Example.event "job-42")
      [(true, 0); (true, 0); (true, 0); (false, 1); (false, 0); (false, 0)]
      (Lag.settled Example.parked) = (c1, c2, s')
    ∧ signals = List.filter is_signal
                  (new_calls (Lag.now (Lag.settled Example.parked)) (Lag.now s'))
    ∧ terminal c1 = true ∧ terminal c2 = true
    ∧ (1 ≤ length signals ≤ 2)%nat
    ∧ (length (List.filter is_accepted_signal
                 (new_calls (Lag.now (Lag.settled Example.parked))
                    (Lag.now s'))) ≤ 1)%nat
    ∧ (SKIPPED c1 → DONE c2 ∧ length signals = 1%nat)
    ∧ (SKIPPED c2 → DONE c1 ∧ length signals = 1%nat)
    ∧ (length signals = 1%nat → SKIPPED c1 ∨ SKIPPED c2)
    ∧ (is_Some (pending (Lag.now (Lag.settled Example.parked)) !! "h1") →
       ∀ l1 l2 l3 rest,
         [(true, 0); (true, 0); (true, 0); (false, 1); (false, 0); (false, 0)]
         = (true, l1) :: (true, l2) :: (true, l3) :: rest →
         DONE c1
         ∧ (SKIPPED c2 ∨ c2 = Failed "sendTaskSuccess" Sfn_TaskDoesNotExist)
         ∧ (Forall (λ turn, turn.2 = 0) rest → SKIPPED c2)).
Proof.
  apply (C6_two_attempts Example.p0 (JObj ∅) (JObj ∅) (Example.event "job-42")
           (Lag.settled Example.parked) "job-42"
           (token_item (JStr "job-42") (JStr "h1")) "h1"
           [(true, 0); (true, 0); (true, 0); (false, 1); (false, 0); (false, 0)]);
    try (vm_compute; done).
  repeat constructor.
Defined.

(** * Further properties *)

(** ** The pause task on its own *)

(** X1. With no record stored for the job id, the pause task stores the
    item of the id and of its task token with one accepted [PutItem] call
    and parks the execution under that token; every other record stays as
    it was. *)
Theorem pause_stores_and_parks p ctx st counts w id tok :
  resolve ctx st (pathToIdPauseTask p) = Some (JStr id) →
  json_get ["Task"; "Token"] ctx = Some (JStr tok) →
  table w !! id = None →
  ∃ w', exec_task (putDbResumeToken p) ctx st counts w = (TaskWaiting tok, w')
    ∧ table w' !! id = Some (token_item (JStr id) (JStr tok))
    ∧ (∀ k, k ≠ id → table w' !! k = table w !! k)
    ∧ pending w'
      = <[tok := {| parked_input := st; parked_resultPath := Some DISCARD |}]>
          (pending w)
    ∧ resumed w' = resumed w
    ∧ new_calls w w' = [put_call (JStr id) (JStr tok) true].
Proof.
  intros Hid Htok Hnone.
  rewrite (exec_putDbResumeToken _ _ _ _ _ tok Htok), Hid, Hnone.
  eexists. split; [reflexivity|]. cbn [table pending resumed park with_call with_table].
  split_and!; try done.
  - apply lookup_insert_eq.
  - intros k Hk. by rewrite lookup_insert_ne.
  - by apply new_calls_app.
Qed.

Lemma pause_stores_and_parks_witness :
  ∃ w', exec_task (putDbResumeToken Example.p0) (Example.task_ctx "h2")
          Example2.app_state ∅ Example.parked = (TaskWaiting "h2", w')
    ∧ table w' !! "job-7" = Some (token_item (JStr "job-7") (JStr "h2"))
    ∧ (∀ k, k ≠ "job-7" → table w' !! k = table Example.parked !! k)
    ∧ pending w'
      = <["h2" := {| parked_input := Example2.app_state;
                     parked_resultPath := Some DISCARD |}]>
          (pending Example.parked)
    ∧ resumed w' = resumed Example.parked
    ∧ new_calls Example.parked w' = [put_call (JStr "job-7") (JStr "h2") true].
Proof.
  apply (pause_stores_and_parks Example.p0 (Example.task_ctx "h2")
           Example2.app_state ∅ Example.parked "job-7" "h2");
    vm_compute; reflexivity.
Defined.

(** X2. For a [pathToIdPauseTask] that names one node (fields and array
    indices, in dot or bracket notation): when the state of the application
    holds no string there, the pause task fails: it writes no record and
    parks nothing. *)
Theorem pause_without_id_fails p ctx st counts w :
  is_Some (parse_path (pathToIdPauseTask p)) →
  (∀ id, resolve ctx st (pathToIdPauseTask p) ≠ Some (JStr id)) →
  ∃ e w', exec_task (putDbResumeToken p) ctx st counts w = (TaskFailed e, w')
    ∧ table w' = table w ∧ pending w' = pending w ∧ resumed w' = resumed w
    ∧ Forall (λ c, call_accepted c = false) (new_calls w w').
Proof.
  intros _ Hid. unfold exec_task, exec_task_on.
  rewrite putDbResumeToken_request.
  destruct (resolve ctx st (pathToIdPauseTask p)) as [v|] eqn:Hv.
  2: { eexists _, w. split; [reflexivity|]. split_and!; try done.
       rewrite (new_calls_app w w []); [done|by rewrite app_nil_r]. }
  destruct (json_get ["Task"; "Token"] ctx) as [tokv|].
  2: { eexists _, w. split; [reflexivity|]. split_and!; try done.
       rewrite (new_calls_app w w []); [done|by rewrite app_nil_r]. }
  unfold call_aws.
  change (dispatch _ _ _ _ w) with
    (match putItem (put_request v tokv) (table w) with
     | inr (res, t) => inr (res, with_table t w)
     | inl e => inl e
     end : ErrorName + json * World).
  rewrite putItem_put_request.
  destruct v as [| | |id| |]; try by destruct (Hid id).
  all: eexists _, _; (split; [reflexivity|]); split_and!; try done.
  all: erewrite new_calls_app by reflexivity; by repeat constructor.
Qed.

Lemma pause_without_id_fails_witness :
  ∃ e w', exec_task (putDbResumeToken Example.p0) (Example.task_ctx "h3")
            (JObj ∅) ∅ Example.parked = (TaskFailed e, w')
    ∧ table w' = table Example.parked ∧ pending w' = pending Example.parked
    ∧ resumed w' = resumed Example.parked
    ∧ Forall (λ c, call_accepted c = false) (new_calls Example.parked w').
Proof.
  apply (pause_without_id_fails Example.p0 (Example.task_ctx "h3") (JObj ∅) ∅
           Example.parked).
  - vm_compute. by eexists.
  - intros id. vm_compute. discriminate.
Defined.

(** ** The resume state machine on unusual inputs *)

(** X3. For a [pathToIdWorkflow] that names one node (fields and array
    indices, in dot or bracket notation): when the event holds no string
    there, the resume attempt fails in [getResumeToken]: the engine is not
    signalled, nothing is deleted, and table and parked executions stay as
    they were. *)
Theorem resume_without_id_fails p ctx ev w :
  is_Some (parse_path (pathToIdWorkflow p)) →
  (∀ id, resolve ctx (JObj ev) (pathToIdWorkflow p) ≠ Some (JStr id)) →
  ∃ e w', resume p ctx ev w = (Failed "getResumeToken" e, w')
    ∧ table w' = table w ∧ pending w' = pending w ∧ resumed w' = resumed w
    ∧ List.filter is_signal (new_calls w w') = []
    ∧ List.filter is_delete (new_calls w w') = [].
Proof.
  intros _ Hid. rewrite resume_eq.
  destruct (resolve ctx (JObj ev) (pathToIdWorkflow p)) as [v|].
  2: { eexists _, w. split; [reflexivity|]. split_and!; try done.
       all: rewrite (new_calls_app w w []); [done|by rewrite app_nil_r]. }
  destruct v as [| | |id| |]; try by destruct (Hid id).
  all: eexists _, _; (split; [reflexivity|]); split_and!; try done.
  all: by erewrite new_calls_app by reflexivity.
Qed.

Lemma resume_without_id_fails_witness :
  ∃ e w', resume Example.p0 (JObj ∅) {[ "detail" := JObj ∅ ]} Example.parked
            = (Failed "getResumeToken" e, w')
    ∧ table w' = table Example.parked ∧ pending w' = pending Example.parked
    ∧ resumed w' = resumed Example.parked
    ∧ List.filter is_signal (new_calls Example.parked w') = []
    ∧ List.filter is_delete (new_calls Example.parked w') = [].
Proof.
  apply (resume_without_id_fails Example.p0 (JObj ∅) {[ "detail" := JObj ∅ ]}
           Example.parked).
  - vm_compute. by eexists.
  - intros id. vm_compute. discriminate.
Defined.

(** X4. A stored item without a [token.S] attribute is neither signalled
    nor deleted: the attempt ends in [SKIPPED] after the lookup and the item
    stays. *)
Theorem resume_item_without_token p ctx ev w id item :
  resolve ctx (JObj ev) (pathToIdWorkflow p) = Some (JStr id) →
  table w !! id = Some item →
  item_token item = None →
  ∃ c w', resume p ctx ev w = (c, w')
    ∧ SKIPPED c
    ∧ new_calls w w' = [lookup_call (JStr id) true]
    ∧ table w' = table w ∧ pending w' = pending w ∧ resumed w' = resumed w.
Proof.
  intros Hid Hitem Htok. rewrite resume_eq, Hid. cbn zeta.
  rewrite Hitem. cbn [mbind option_bind]. rewrite Htok.
  do 2 eexists. split; [reflexivity|]. split_and!; try done.
  by apply new_calls_app.
Qed.

Lemma resume_item_without_token_witness :
  ∃ c w', resume Example.p0 (JObj ∅) (Example.event "job-1") Example2.bare
            = (c, w')
    ∧ SKIPPED c
    ∧ new_calls Example2.bare w' = [lookup_call (JStr "job-1") true]
    ∧ table w' = table Example2.bare
    ∧ pending w' = pending Example2.bare
    ∧ resumed w' = resumed Example2.bare.
Proof.
  apply (resume_item_without_token Example.p0 (JObj ∅) (Example.event "job-1")
           Example2.bare "job-1" Example2.bare_item);
    vm_compute; reflexivity.
Defined.

(** ** What a resume attempt leaves alone *)

(** X5. Whatever the event and the world, a resume attempt writes no
    record and parks nothing: every record and every parked execution it
    leaves was there before, unchanged, and it never calls [PutItem]. *)
Theorem resume_only_removes p ctx ev w :
  (∀ k v, table (resume p ctx ev w).2 !! k = Some v → table w !! k = Some v)
  ∧ (∀ t pk, pending (resume p ctx ev w).2 !! t = Some pk →
             pending w !! t = Some pk)
  ∧ Forall (λ c, call_op c ≠ ("dynamodb", "putItem"))
      (new_calls w (resume p ctx ev w).2).
Proof.
  split_and!.
  - intros k v. rewrite resume_eq. cbn zeta.
    destruct (resolve ctx (JObj ev) (pathToIdWorkflow p)) as [[| | |id| |]|];
      try done.
    destruct (table w !! id ≫= item_token) as [[| | |tok| |]|]; try done.
    destruct (pending w !! tok) as [pk|]; [|done].
    destruct (resolve ctx _ (pathToIdWorkflow p)) as [[| | |id'| |]|];
      try done.
    cbn [snd table with_call with_table release].
    rewrite lookup_delete_Some. by intros [_ ?].
  - intros t pk'. rewrite resume_eq. cbn zeta.
    destruct (resolve ctx (JObj ev) (pathToIdWorkflow p)) as [[| | |id| |]|];
      try done.
    destruct (table w !! id ≫= item_token) as [[| | |tok| |]|]; try done.
    destruct (pending w !! tok) as [pk|]; [|done].
    assert (delete tok (pending w) !! t = Some pk' → pending w !! t = Some pk')
      by (rewrite lookup_delete_Some; by intros [_ ?]).
    by destruct (resolve ctx _ (pathToIdWorkflow p)) as [[| | |id'| |]|].
  - destruct (resume_trace p ctx ev w) as (tr & Htr & Hshape).
    rewrite (new_calls_app _ _ _ Htr).
    destruct Hshape
      as [->|[(v & ok & ->)|[(v & tok & ok & ->)|(v & tok & d & ok & ->)]]];
      by repeat constructor.
Qed.

(** X6. An attempt on an event EventBridge delivers touches the record of
    the job id of the event and the execution parked under the token of
    that record, and nothing else: the records of other ids, and the
    executions parked or released under other tokens, stay as they were. *)
Theorem resume_touches_one_job p ctx ev w id :
  event_like ev →
  resolve ctx (JObj ev) (pathToIdWorkflow p) = Some (JStr id) →
  (∀ k, k ≠ id → table (resume p ctx ev w).2 !! k = table w !! k)
  ∧ (∀ t, table w !! id ≫= item_token ≠ Some (JStr t) →
          pending (resume p ctx ev w).2 !! t = pending w !! t
          ∧ resumed (resume p ctx ev w).2 !! t = resumed w !! t).
Proof.
  intros Hev Hid. rewrite resume_eq, Hid. cbn zeta.
  destruct (table w !! id ≫= item_token) as [[| | |tok| |]|]; try done.
  destruct (pending w !! tok) as [pk|]; [|done].
  rewrite (resolve_after_signal _ _ _ _ _ id Hev Hid).
  cbn [snd table pending resumed with_call with_table release]. split.
  - intros k Hk. by rewrite lookup_delete_ne.
  - intros t Ht. assert (tok ≠ t) by congruence.
    by rewrite lookup_delete_ne, lookup_insert_ne.
Qed.

Lemma resume_touches_one_job_witness :
  (∀ k, k ≠ "job-42" →
        table (resume Example.p0 (JObj ∅) (Example.event "job-42")
                 Example2.parked).2 !! k = table Example2.parked !! k)
  ∧ (∀ t, table Example2.parked !! "job-42" ≫= item_token ≠ Some (JStr t) →
          pending (resume Example.p0 (JObj ∅) (Example.event "job-42")
                     Example2.parked).2 !! t = pending Example2.parked !! t
          ∧ resumed (resume Example.p0 (JObj ∅) (Example.event "job-42")
                       Example2.parked).2 !! t = resumed Example2.parked !! t).
Proof.
  apply (resume_touches_one_job Example.p0 (JObj ∅) (Example.event "job-42")
           Example2.parked "job-42");
    vm_compute; done.
Defined.

(** ** Pause and resume together *)

(** X7. Suspend, then complete.  The pause task parks an execution for a
    job id without a record; the resume state machine then runs on the
    event of that id.  When its lookup reaches a copy of the table that has
    received the record, the execution is released with the state it was
    parked with, the signal carried the token of the pause task, and the
    table is what it was before the pause task.  When its lookup reaches a
    copy that has not, the attempt is skipped: the record stays and the
    execution stays parked.  The table itself holds the record, its
    state before the pause task does not. *)
Theorem pause_then_resume p ctxP st ctx lagP lag ev s id tok :
  resolve ctxP st (pathToIdPauseTask p) = Some (JStr id) →
  json_get ["Task"; "Token"] ctxP = Some (JStr tok) →
  table (Lag.now s) !! id = None →
  event_like ev →
  resolve ctx (JObj ev) (pathToIdWorkflow p) = Some (JStr id) →
  ∃ s1 c s2,
    Lag.exec_task lagP (putDbResumeToken p) ctxP st ∅ s = (TaskWaiting tok, s1)
    ∧ Lag.resume p ctx lag ev s1 = (c, s2)
    ∧ Lag.read_from 0 s1 !! id = Some (token_item (JStr id) (JStr tok))
    ∧ Lag.read_from 1 s1 !! id = None
    ∧ (Lag.read_from lag s1 !! id = Some (token_item (JStr id) (JStr tok)) →
       c = Succeeded (JObj ∅)
       ∧ table (Lag.now s2) = table (Lag.now s)
       ∧ pending (Lag.now s2) = delete tok (pending (Lag.now s))
       ∧ resumed (Lag.now s2) !! tok = Some (Some st)
       ∧ new_calls (Lag.now s) (Lag.now s2)
         = [put_call (JStr id) (JStr tok) true; lookup_call (JStr id) true;
            signal_call (JStr tok) true; delete_call (JStr id) true])
    ∧ (Lag.read_from lag s1 !! id = None →
       SKIPPED c
       ∧ table (Lag.now s2) !! id = Some (token_item (JStr id) (JStr tok))
       ∧ pending (Lag.now s2) !! tok
         = Some {| parked_input := st; parked_resultPath := Some DISCARD |}
       ∧ resumed (Lag.now s2) = resumed (Lag.now s)
       ∧ new_calls (Lag.now s) (Lag.now s2)
         = [put_call (JStr id) (JStr tok) true; lookup_call (JStr id) true]).
Proof.
  intros HidP Htok Hnone Hev Hid.
  unfold Lag.exec_task.
  rewrite (exec_putDbResumeToken_on _ _ _ _ _ _ tok Htok), HidP, Hnone.
  match goal with
  | |- ∃ s1 c s2, (_, ?z) = _ ∧ _ =>
      set (s1 := z); destruct (Lag.resume p ctx lag ev s1) as [c s2] eqn:Hrun;
      exists s1, c, s2
  end.
  split; [reflexivity|]. split; [exact Hrun|].
  split; [apply lookup_insert_eq|]. split; [exact Hnone|].
  rewrite lag_resume_eq, Hid in Hrun. cbn zeta in Hrun.
  split; intros Hfound; rewrite Hfound in Hrun;
    cbn [mbind option_bind] in Hrun.
  - change (item_token (token_item (JStr id) (JStr tok)))
      with (Some (JStr tok)) in Hrun.
    cbn iota in Hrun.
    cbn [s1 Lag.now Lag.after pending park with_call with_table] in Hrun.
    rewrite lookup_insert_eq in Hrun.
    rewrite (resolve_after_signal _ _ _ _ _ id Hev Hid) in Hrun.
    injection Hrun as <- <-.
    cbn [Lag.now Lag.after table pending resumed park release with_call
         with_table parked_input parked_resultPath apply_result_path].
    split_and!.
    + done.
    + by apply delete_insert_id.
    + by rewrite delete_insert_eq.
    + apply lookup_insert_eq.
    + apply new_calls_app. by calls_of (Lag.now s).
  - injection Hrun as <- <-.
    cbn [s1 Lag.now Lag.after table pending resumed park with_call with_table].
    split_and!.
    + done.
    + apply lookup_insert_eq.
    + apply lookup_insert_eq.
    + done.
    + apply new_calls_app. by calls_of (Lag.now s).
Qed.

Lemma pause_then_resume_witness :
  ∃ s1 c s2,
    Lag.exec_task 0 (putDbResumeToken Example.p0) (Example.task_ctx "h1")
      Example.app_state ∅ (Lag.settled Example.empty) = (TaskWaiting "h1", s1)
    ∧ Lag.resume Example.p0 (JObj ∅) 1 (Example.event "job-42") s1 = (c, s2)
    ∧ Lag.read_from 0 s1 !! "job-42"
      = Some (token_item (JStr "job-42") (JStr "h1"))
    ∧ Lag.read_from 1 s1 !! "job-42" = None
    ∧ (Lag.read_from 1 s1 !! "job-42"
         = Some (token_item (JStr "job-42") (JStr "h1")) →
       c = Succeeded (JObj ∅)
       ∧ table (Lag.now s2) = table (Lag.now (Lag.settled Example.empty))
       ∧ pending (Lag.now s2)
         = delete "h1" (pending (Lag.now (Lag.settled Example.empty)))
       ∧ resumed (Lag.now s2) !! "h1" = Some (Some Example.app_state)
       ∧ new_calls (Lag.now (Lag.settled Example.empty)) (Lag.now s2)
         = [put_call (JStr "job-42") (JStr "h1") true;
            lookup_call (JStr "job-42") true;
            signal_call (JStr "h1") true; delete_call (JStr "job-42") true])
    ∧ (Lag.read_from 1 s1 !! "job-42" = None →
       SKIPPED c
       ∧ table (Lag.now s2) !! "job-42"
         = Some (token_item (JStr "job-42") (JStr "h1"))
       ∧ pending (Lag.now s2) !! "h1"
         = Some {| parked_input := Example.app_state;
                   parked_resultPath := Some DISCARD |}
       ∧ resumed (Lag.now s2) = resumed (Lag.now (Lag.settled Example.empty))
       ∧ new_calls (Lag.now (Lag.settled Example.empty)) (Lag.now s2)
         = [put_call (JStr "job-42") (JStr "h1") true;
            lookup_call (JStr "job-42") true]).
Proof.
  apply (pause_then_resume Example.p0 (Example.task_ctx "h1") Example.app_state
           (JObj ∅) 0 1 (Example.event "job-42") (Lag.settled Example.empty)
           "job-42" "h1");
    vm_compute; done.
Defined.

(** X8. Complete, then suspend: an event that arrives before the pause
    task has stored the token is skipped and not remembered.  The pause
    task that follows parks the execution, no signal is made for it, and
    the execution keeps waiting. *)
Theorem early_event_is_lost p ctxP st ctx ev w id tok sm name :
  resolve ctxP st (pathToIdPauseTask p) = Some (JStr id) →
  json_get ["Task"; "Token"] ctxP = Some (JStr tok) →
  resolve ctx (JObj ev) (pathToIdWorkflow p) = Some (JStr id) →
  table w !! id = None →
  resumed w !! tok = None →
  ∃ c w1 w2,
    resume p ctx ev w = (c, w1)
    ∧ SKIPPED c
    ∧ exec_task (putDbResumeToken p) ctxP st ∅ w1 = (TaskWaiting tok, w2)
    ∧ is_Some (pending w2 !! tok)
    ∧ List.filter is_signal (new_calls w w2) = []
    ∧ step sm ctxP (Waiting name tok) w2 = (Waiting name tok, w2).
Proof.
  intros HidP Htok Hid Hnone Hres.
  rewrite resume_eq, Hid. cbn zeta. rewrite Hnone. cbn [mbind option_bind].
  eexists _, _, _. split; [reflexivity|]. split; [done|].
  rewrite (exec_putDbResumeToken _ _ _ _ _ tok Htok), HidP.
  cbn [table with_call]. rewrite Hnone.
  split; [reflexivity|]. split_and!.
  - cbn [pending park]. rewrite lookup_insert_eq. by eexists.
  - erewrite new_calls_app; [|by calls_of w]. done.
  - unfold step, step_on. cbn [resumed park with_call with_table].
    by rewrite Hres.
Qed.

Lemma early_event_is_lost_witness :
  ∃ c w1 w2,
    resume Example.p0 (JObj ∅) (Example.event "job-42") Example.empty = (c, w1)
    ∧ SKIPPED c
    ∧ exec_task (putDbResumeToken Example.p0) (Example.task_ctx "h1")
        Example.app_state ∅ w1 = (TaskWaiting "h1", w2)
    ∧ is_Some (pending w2 !! "h1")
    ∧ List.filter is_signal (new_calls Example.empty w2) = []
    ∧ step Example.app (Example.task_ctx "h1") (Waiting "pause" "h1") w2
      = (Waiting "pause" "h1", w2).
Proof.
  apply (early_event_is_lost Example.p0 (Example.task_ctx "h1")
           Example.app_state (JObj ∅) (Example.event "job-42") Example.empty
           "job-42" "h1" Example.app "pause");
    vm_compute; reflexivity.
Defined.

(** ** One event delivered several times *)

(** Deliveries of the event of a record that is deleted and whose token
    the engine waits for no more: a delivery whose lookup reaches a copy
    without the record is skipped; one whose lookup reaches a copy that
    still holds the record signals, is rejected and fails. *)
Lemma lag_deliveries_late p ctxs ev s id item tok :
  Forall (λ x, resolve x.1 (JObj ev) (pathToIdWorkflow p) = Some (JStr id))
    ctxs →
  item_token item = Some (JStr tok) →
  table (Lag.now s) !! id = None →
  pending (Lag.now s) !! tok = None →
  Race.behind id item false (Lag.earlier s) →
  ∃ cs s' tr,
    Lag.deliveries p ctxs ev s = (cs, s')
    ∧ length cs = length ctxs
    ∧ Forall (λ c, SKIPPED c
                   ∨ c = Failed "sendTaskSuccess" Sfn_TaskDoesNotExist) cs
    ∧ (Forall (λ x, x.2 = 0) ctxs →
       cs = replicate (length ctxs) (Failed "sendTaskSuccess" States_Runtime)
       ∧ List.filter is_signal tr = [])
    ∧ table (Lag.now s') = table (Lag.now s)
    ∧ pending (Lag.now s') = pending (Lag.now s)
    ∧ calls (Lag.now s') = (calls (Lag.now s) ++ tr)%list
    ∧ List.filter is_accepted_signal tr = []
    ∧ List.filter is_delete tr = [].
Proof.
  intros Hctxs Htok. revert s.
  induction Hctxs as [|[ctx lag] ctxs Hid _ IH]; intros s Hnone Hpk Hbehind.
  { exists [], s, []. split_and!; try done. by rewrite app_nil_r. }
  cbn [fst] in Hid. cbn [Lag.deliveries].
  rewrite lag_resume_eq, Hid. cbn zeta.
  assert (Lag.read_from lag s !! id = Some item
          ∨ Lag.read_from lag s !! id = None) as [Hfound|Hfound].
  { pose proof (read_from_copies lag s) as Hin.
    apply elem_of_cons in Hin as [->|Hin]; [by right|].
    unfold Race.behind in Hbehind. rewrite Forall_forall in Hbehind.
    destruct (Hbehind _ Hin) as [?|[_ ?]]; auto. }
  - rewrite Hfound. cbn [mbind option_bind]. rewrite Htok, Hpk.
    match goal with
    | |- context [Lag.deliveries p ctxs ev ?s1] =>
        destruct (IH s1) as (cs & s' & tr & -> & Hlen & Hcs & Hfresh & Ht & Hp
                             & Hc & Ha & Hd)
    end; [done|done| |].
    { cbn [Lag.earlier Lag.after Lag.copies Lag.now table with_call].
      repeat (apply Forall_cons; split; [by right|]). done. }
    eexists _, s', (lookup_call (JStr id) true
                    :: signal_call (JStr tok) false :: tr).
    split; [reflexivity|]. split; [cbn [length]; congruence|].
    split; [constructor; [by right|done]|].
    split.
    { intros [Hzero _]%Forall_cons. cbn [snd] in Hzero. subst lag.
      by rewrite read_from_now, Hnone in Hfound. }
    split; [done|]. split; [done|].
    split; [rewrite Hc; cbn [Lag.now Lag.after]; by calls_of (Lag.now s)|].
    cbn [List.filter]. by rewrite Ha, Hd.
  - rewrite Hfound. cbn [mbind option_bind].
    match goal with
    | |- context [Lag.deliveries p ctxs ev ?s1] =>
        destruct (IH s1) as (cs & s' & tr & -> & Hlen & Hcs & Hfresh & Ht & Hp
                             & Hc & Ha & Hd)
    end; [done|done| |].
    { cbn [Lag.earlier Lag.after Lag.copies Lag.now table with_call].
      repeat (apply Forall_cons; split; [by right|]). done. }
    eexists _, s', (lookup_call (JStr id) true :: tr).
    split; [reflexivity|]. split; [cbn [length]; congruence|].
    split; [constructor; [by left|done]|].
    split.
    { intros [_ Hall]%Forall_cons. destruct (Hfresh Hall) as [-> Hs].
      cbn [List.filter]. by rewrite Hs. }
    split; [done|]. split; [done|].
    split; [rewrite Hc; cbn [Lag.now Lag.after]; by calls_of (Lag.now s)|].
    cbn [List.filter]. by rewrite Ha, Hd.
Qed.

(** X9. At-least-once delivery, one delivery after the other: of the
    deliveries of the event of a record that every copy of the table holds
    and whose token the engine waits for, the first succeeds.  Every later
    one is skipped, or, when its lookup reaches a copy from before the
    delete, it signals again, is rejected and fails.  The engine accepts
    one signal, one delete is made and the record is gone.  When no later
    lookup lags, all later deliveries are skipped and one signal call is
    made in all. *)
Theorem redelivery_after_success p ctx lag ctxs ev s id item tok :
  event_like ev →
  Forall (λ x, resolve x.1 (JObj ev) (pathToIdWorkflow p) = Some (JStr id))
    ((ctx, lag) :: ctxs) →
  Lag.everywhere id item s →
  item_token item = Some (JStr tok) →
  is_Some (pending (Lag.now s) !! tok) →
  ∃ cs s',
    Lag.deliveries p ((ctx, lag) :: ctxs) ev s = (Succeeded (JObj ∅) :: cs, s')
    ∧ length cs = length ctxs
    ∧ Forall (λ c, SKIPPED c
                   ∨ c = Failed "sendTaskSuccess" Sfn_TaskDoesNotExist) cs
    ∧ (Forall (λ x, x.2 = 0) ctxs →
       cs = replicate (length ctxs) (Failed "sendTaskSuccess" States_Runtime)
       ∧ List.filter is_signal (new_calls (Lag.now s) (Lag.now s'))
         = [signal_call (JStr tok) true])
    ∧ List.filter is_accepted_signal (new_calls (Lag.now s) (Lag.now s'))
      = [signal_call (JStr tok) true]
    ∧ length (List.filter is_delete (new_calls (Lag.now s) (Lag.now s')))
      = 1%nat
    ∧ table (Lag.now s') = delete id (table (Lag.now s))
    ∧ pending (Lag.now s') = delete tok (pending (Lag.now s)).
Proof.
  intros Hev Hctxs Hall Htok [pk Hpk].
  apply Forall_cons in Hctxs as [Hid Hctxs]. cbn [fst] in Hid.
  pose proof (read_from_everywhere lag s id item Hall) as Hfound.
  apply Forall_cons in Hall as [Hitem Hearlier].
  cbn [Lag.deliveries]. rewrite lag_resume_eq, Hid. cbn zeta.
  rewrite Hfound. cbn [mbind option_bind]. rewrite Htok, Hpk.
  rewrite (resolve_after_signal _ _ _ _ _ id Hev Hid).
  match goal with
  | |- context [Lag.deliveries p ctxs ev ?s1] =>
      destruct (lag_deliveries_late p ctxs ev s1 id item tok Hctxs Htok)
        as (cs & s' & tr & -> & Hlen & Hcs & Hfresh & Ht & Hp & Hc & Ha & Hd)
  end.
  { apply lookup_delete_eq. }
  { apply lookup_delete_eq. }
  { cbn [Lag.earlier Lag.after Lag.copies Lag.now table with_call release].
    repeat (apply Forall_cons; split; [by left|]).
    eapply Forall_impl; [exact Hearlier|]. by left. }
  exists cs, s'. split; [reflexivity|].
  assert (calls (Lag.now s')
          = (calls (Lag.now s)
             ++ [lookup_call (JStr id) true; signal_call (JStr tok) true;
                 delete_call (JStr id) true] ++ tr)%list) as Hcalls.
  { rewrite Hc. cbn [Lag.now Lag.after]. by calls_of (Lag.now s). }
  rewrite (new_calls_app _ _ _ Hcalls), !List.filter_app, Ha, Hd.
  split; [done|]. split; [done|].
  split.
  { intros Hzero. destruct (Hfresh Hzero) as [-> Hs]. by rewrite Hs. }
  by rewrite Ht, Hp.
Qed.

Lemma redelivery_after_success_witness :
  ∃ cs s',
    Lag.deliveries Example.p0 [(JObj ∅, 0); (JObj ∅, 1); (JObj ∅, 0)]
      (Example.event "job-42") (Lag.settled Example.parked)
      = (Succeeded (JObj ∅) :: cs, s')
    ∧ length cs = 2%nat
    ∧ Forall (λ c, SKIPPED c
                   ∨ c = Failed "sendTaskSuccess" Sfn_TaskDoesNotExist) cs
    ∧ (Forall (λ x : json * nat, x.2 = 0) [(JObj ∅, 1); (JObj ∅, 0)] →
       cs = replicate 2 (Failed "sendTaskSuccess" States_Runtime)
       ∧ List.filter is_signal
           (new_calls (Lag.now (Lag.settled Example.parked)) (Lag.now s'))
         = [signal_call (JStr "h1") true])
    ∧ List.filter is_accepted_signal
        (new_calls (Lag.now (Lag.settled Example.parked)) (Lag.now s'))
      = [signal_call (JStr "h1") true]
    ∧ length (List.filter is_delete
                (new_calls (Lag.now (Lag.settled Example.parked)) (Lag.now s')))
      = 1%nat
    ∧ table (Lag.now s')
      = delete "job-42" (table (Lag.now (Lag.settled Example.parked)))
    ∧ pending (Lag.now s')
      = delete "h1" (pending (Lag.now (Lag.settled Example.parked))).
Proof.
  apply (redelivery_after_success Example.p0 (JObj ∅) 0
           [(JObj ∅, 1); (JObj ∅, 0)] (Example.event "job-42")
           (Lag.settled Example.parked) "job-42"
           (token_item (JStr "job-42") (JStr "h1")) "h1").
  - vm_compute. done.
  - repeat constructor.
  - repeat constructor.
  - reflexivity.
  - vm_compute. by eexists.
Defined.

(** In that scenario the second delivery reads the copy from before the
    delete: it signals again and fails; the third is skipped. *)
Example redelivery_to_an_old_copy :
  (Lag.deliveries Example.p0 [(JObj ∅, 0); (JObj ∅, 1); (JObj ∅, 0)]
     (Example.event "job-42") (Lag.settled Example.parked)).1
  = [Succeeded (JObj ∅);
     Failed "sendTaskSuccess" Sfn_TaskDoesNotExist;
     Failed "sendTaskSuccess" States_Runtime].
Proof. by vm_compute. Qed.




(** ** Attempts for two different jobs *)


Section Apart.
Import Race Apart.
Context (p : props) (ev1 ev2 : gmap string json) (id1 id2 tok1 tok2 : string).
Context (item1 item2 : json) (ctx1 ctx2 : json) (w0 : World).
Hypothesis Hev1 : event_like ev1.
Hypothesis Hev2 : event_like ev2.
Hypothesis Htok1 : item_token item1 = Some (JStr tok1).
Hypothesis Htok2 : item_token item2 = Some (JStr tok2).
Hypothesis Hid1 : resolve ctx1 (JObj ev1) (pathToIdWorkflow p) = Some (JStr id1).
Hypothesis Hid2 : resolve ctx2 (JObj ev2) (pathToIdWorkflow p) = Some (JStr id2).
Hypothesis Hids : id1 ≠ id2.
Hypothesis Htoks : tok1 ≠ tok2.




End Apart.





(** ** The names of the resources *)

Lemma length_of_append (front back : string) :
  (String.length front + String.length back)%nat
  = String.length (front +:+ back).
Proof. induction front as [|a front IH]; [done|]. simpl. by f_equal. Qed.

(** A common ending can be cancelled. *)
Lemma string_app_inj_r (s1 s2 s : string) : s1 +:+ s = s2 +:+ s → s1 = s2.
Proof.
  revert s2. induction s1 as [|a s1 IH]; intros [|b s2] Heq.
  - done.
  - apply (f_equal String.length) in Heq.
    rewrite <- !length_of_append in Heq. cbn in Heq. lia.
  - apply (f_equal String.length) in Heq.
    rewrite <- !length_of_append in Heq. cbn in Heq. lia.
  - cbn in Heq. injection Heq as -> Heq. f_equal. by apply IH.
Qed.

(** X12. Within one stack, instances of the construct with different
    [nameSuffix] get different state machine names, different log group
    names and different rule descriptions. *)
Theorem names_tell_suffixes_apart stackName suffix1 suffix2 :
  suffix1 ≠ suffix2 →
  Resources.stateMachineName stackName suffix1
    ≠ Resources.stateMachineName stackName suffix2
  ∧ Resources.logGroupName stackName suffix1
    ≠ Resources.logGroupName stackName suffix2
  ∧ Resources.ruleDescription suffix1 ≠ Resources.ruleDescription suffix2.
Proof.
  intros Hne. unfold Resources.stateMachineName, Resources.logGroupName,
    Resources.ruleDescription.
  split_and!; intros Heq; apply Hne.
  - by do 2 apply String.app_inj in Heq.
  - by do 3 apply String.app_inj in Heq.
  - by apply string_app_inj_r in Heq.
Qed.

Lemma names_tell_suffixes_apart_witness :
  Resources.stateMachineName "TestStack" "test-resume"
    ≠ Resources.stateMachineName "TestStack" "custom-paths"
  ∧ Resources.logGroupName "TestStack" "test-resume"
    ≠ Resources.logGroupName "TestStack" "custom-paths"
  ∧ Resources.ruleDescription "test-resume"
    ≠ Resources.ruleDescription "custom-paths".
Proof.
  apply (names_tell_suffixes_apart "TestStack" "test-resume" "custom-paths").
  discriminate.
Defined.

(** The names the tests of the construct expect. *)
Example names_of_the_tests :
  Resources.stateMachineName "TestStack" "test-resume" = "TestStack_test-resume"
  ∧ Resources.ruleDescription "test-resume" = "test-resume sfnResume".
Proof. done. Qed.
